(** * Spatial-audio direction inference and playback (apps/web/app.js)

    A shallow embedding of [extractPan], [playSpatial], [speakDescription]
    and [base64ToBlob], together with the platform semantics they rest on
    (ECMAScript regular expressions, the Web Audio calls as a trace of
    effects, [atob] and the [Blob] constructor). *)

From Stdlib Require Import NArith ZArith List String Ascii Bool Lia Floats.
Import ListNotations.

(* Decimal Number literals denote the nearest binary64 value, in JavaScript
   as well as here. *)
#[local] Set Warnings "-inexact-float,-register-all".

(* ===================================================================== *)
(** ** JavaScript strings *)
(* ===================================================================== *)

(** A JavaScript string is a finite sequence of UTF-16 code units. *)
Module JSString.

Definition t := list N.

(** The string written with the ASCII characters of [s]. *)
Definition lit (s : string) : t := map N_of_ascii (list_ascii_of_string s).

Definition length (s : t) : Z := Z.of_nat (List.length s).

Definition codeUnitAt (s : t) (i : Z) : option N :=
  if (i <? 0)%Z then None else nth_error s (Z.to_nat i).

End JSString.

(** What the development leaves to the JavaScript engine:
    - [toUppercaseNonAscii ch], the result of toUppercase on the
      one-code-unit string [ch] for [128 <= ch]; the table depends on the
      Unicode version of the engine;
    - [NumberToString x], the decimal rendering Number::toString(x, 10).
    The program is verified for every engine. *)
Class Engine := {
  toUppercaseNonAscii : N -> list N;
  NumberToString : float -> JSString.t
}.

(* ===================================================================== *)
(** ** ECMAScript regular expressions (the fragment the program uses) *)
(* ===================================================================== *)

Module RegExp.

(** Abstract syntax of patterns: pattern characters, sequencing
    (Alternative), [|] (Disjunction), capturing groups and the [\b]
    assertion. *)
Inductive pattern : Type :=
| Empty
| Char (c : N)
| Seq (r1 r2 : pattern)
| Alt (r1 r2 : pattern)
| Group (r : pattern)
| WordBoundary.

(** The pattern matching the characters of [s] one after the other. *)
Fixpoint Lit (s : string) : pattern :=
  match s with
  | EmptyString => Empty
  | String a s' => Seq (Char (N_of_ascii a)) (Lit s')
  end.

Definition Chr (s : string) : pattern :=
  match s with
  | String a EmptyString => Char (N_of_ascii a)
  | _ => Lit s
  end.

Definition asciiUpper (ch : N) : N :=
  if (97 <=? ch)%N && (ch <=? 122)%N then (ch - 32)%N else ch.

(** toUppercase of the one-code-unit string [ch]. *)
Definition toUppercase `{Engine} (ch : N) : list N :=
  if (ch <? 128)%N then [asciiUpper ch] else toUppercaseNonAscii ch.

(** Canonicalize ( rer, ch ), for a pattern without the [u] flag. *)
Definition Canonicalize `{Engine} (ignoreCase : bool) (ch : N) : N :=
  if negb ignoreCase then ch
  else match toUppercase ch with
       | [cu] => if (128 <=? ch)%N && (cu <? 128)%N then ch else cu
       | _ => ch
       end.

(** The basic word characters: [a-z], [A-Z], [0-9] and [_]. *)
Definition wordCharacter (c : N) : bool :=
  ((97 <=? c)%N && (c <=? 122)%N) || ((65 <=? c)%N && (c <=? 90)%N)
  || ((48 <=? c)%N && (c <=? 57)%N) || (c =? 95)%N.

(** IsWordChar ( rer, Input, e ). *)
Definition IsWordChar (Input : JSString.t) (e : Z) : bool :=
  if (e =? -1)%Z || (e =? JSString.length Input)%Z then false
  else match JSString.codeUnitAt Input e with
       | Some c => wordCharacter c
       | None => false
       end.

(** The matcher of a pattern, in the continuation-passing style of the
    language specification: [m r Input i x c] runs [r] at end index [x]
    and hands the new end index to the continuation [c]; [None] is
    failure. *)
Fixpoint m `{Engine} (r : pattern) (Input : JSString.t) (ignoreCase : bool)
         (x : Z) (c : Z -> option Z) : option Z :=
  match r with
  | Empty => c x
  | Char ch =>
      match JSString.codeUnitAt Input x with
      | None => None
      | Some ch' =>
          if (Canonicalize ignoreCase ch' =? Canonicalize ignoreCase ch)%N
          then c (x + 1)%Z else None
      end
  | Seq r1 r2 => m r1 Input ignoreCase x (fun y => m r2 Input ignoreCase y c)
  | Alt r1 r2 =>
      match m r1 Input ignoreCase x c with
      | Some y => Some y
      | None => m r2 Input ignoreCase x c
      end
  | Group r' => m r' Input ignoreCase x c
  | WordBoundary =>
      let a := IsWordChar Input (x - 1) in
      let b := IsWordChar Input x in
      if xorb a b then c x else None
  end.

(** A regular expression object: a pattern and its flags.  Neither
    pattern of the program has [g] or [y], so matching starts at index 0
    and [lastIndex] is never read or written. *)
Record regexp := { source : pattern; ignoreCaseFlag : bool }.

(** The loop of RegExpBuiltinExec: try the matcher at [lastIndex]; on
    failure advance by one code unit; fail once [lastIndex] is past the
    end of the input.  [n] counts the start indices left to try. *)
Fixpoint execLoop `{Engine} (R : regexp) (S : JSString.t) (n : nat)
         (lastIndex : Z) : option (Z * Z) :=
  match n with
  | O => None
  | Datatypes.S n' =>
      match m (source R) S (ignoreCaseFlag R) lastIndex (fun y => Some y) with
      | Some e => Some (lastIndex, e)
      | None => execLoop R S n' (lastIndex + 1)
      end
  end.

(** RegExpBuiltinExec, returning the start and end index of the match. *)
Definition exec `{Engine} (R : regexp) (S : JSString.t) : option (Z * Z) :=
  execLoop R S (Datatypes.S (List.length S)) 0.

(** RegExp.prototype.test. *)
Definition test `{Engine} (R : regexp) (S : JSString.t) : bool :=
  match exec R S with Some _ => true | None => false end.

End RegExp.

(* ===================================================================== *)
(** ** The direction extractor *)
(* ===================================================================== *)

Import RegExp.

(** [const extractPan = (text) => { ... }].  The result is a JavaScript
    Number, an IEEE 754 binary64 value. *)
Definition extractPan `{Engine} (text : JSString.t) : float :=
  let right :=
    {| source := Seq WordBoundary
                   (Seq (Group (Alt (Chr "2") (Alt (Chr "3") (Chr "4"))))
                        (Seq (Lit " o'clock") WordBoundary));
       ignoreCaseFlag := true |} in
  let left :=
    {| source := Seq WordBoundary
                   (Seq (Group (Alt (Chr "8") (Alt (Chr "9") (Lit "10"))))
                        (Seq (Lit " o'clock") WordBoundary));
       ignoreCaseFlag := true |} in
  if test right text then 0.6%float
  else if test left text then (- 0.6)%float
  else 0%float.

(* ===================================================================== *)
(** ** Clock phrases, as the specification words them *)
(* ===================================================================== *)

(** The reading of "a case-insensitive, whole-word match of a phrase":
    the text splits as [pre ++ mid ++ post] where [mid] is the phrase up
    to the case of its ASCII letters, no word character (ASCII letter,
    digit or underscore) ends [pre] and none starts [post]. *)
Module Phrase.

Definition isUpperLetter (c : N) : bool := (65 <=? c)%N && (c <=? 90)%N.
Definition isLowerLetter (c : N) : bool := (97 <=? c)%N && (c <=? 122)%N.
Definition isDigit (c : N) : bool := (48 <=? c)%N && (c <=? 57)%N.
Definition isWordChar (c : N) : bool :=
  isUpperLetter c || isLowerLetter c || isDigit c || (c =? 95)%N.

Definition lower (c : N) : N := if isUpperLetter c then (c + 32)%N else c.

(** Equality of two characters up to ASCII letter case. *)
Definition sameChar (a b : N) : Prop := lower a = lower b.

Definition endsClean (pre : JSString.t) : Prop :=
  forall pre' c, pre = pre' ++ [c] -> isWordChar c = false.

Definition startsClean (post : JSString.t) : Prop :=
  forall c post', post = c :: post' -> isWordChar c = false.

Definition occursIn (phrase : string) (text : JSString.t) : Prop :=
  exists pre mid post,
    text = pre ++ mid ++ post
    /\ Forall2 sameChar mid (JSString.lit phrase)
    /\ endsClean pre /\ startsClean post.

(** A right-range phrase: 2, 3 or 4 o'clock. *)
Definition right (text : JSString.t) : Prop :=
  occursIn "2 o'clock" text \/ occursIn "3 o'clock" text
  \/ occursIn "4 o'clock" text.

(** A left-range phrase: 8, 9 or 10 o'clock. *)
Definition left (text : JSString.t) : Prop :=
  occursIn "8 o'clock" text \/ occursIn "9 o'clock" text
  \/ occursIn "10 o'clock" text.

End Phrase.

(* ===================================================================== *)
(** ** Base64: [atob] and the encoding of RFC 4648 *)
(* ===================================================================== *)

Module Base64.

Definition isAsciiWhitespace (c : N) : bool :=
  (c =? 9)%N || (c =? 10)%N || (c =? 12)%N || (c =? 13)%N || (c =? 32)%N.

(** The value of a character of the base64 alphabet (RFC 4648, Table 1). *)
Definition index (c : N) : option N :=
  if (65 <=? c)%N && (c <=? 90)%N then Some (c - 65)%N
  else if (97 <=? c)%N && (c <=? 122)%N then Some (c - 71)%N
  else if (48 <=? c)%N && (c <=? 57)%N then Some (c + 4)%N
  else if (c =? 43)%N then Some 62%N
  else if (c =? 47)%N then Some 63%N
  else None.

(** [data] without its last character, when that is [=]. *)
Definition dropEquals (data : JSString.t) : option JSString.t :=
  match rev data with
  | c :: r => if (c =? 61)%N then Some (rev r) else None
  | [] => None
  end.

(** Step 2 of forgiving-base64 decode: when the length is a multiple of
    four, one or two trailing [=] are removed. *)
Definition removePadding (data : JSString.t) : JSString.t :=
  if (List.length data mod 4 =? 0)%nat then
    match dropEquals data with
    | Some data1 =>
        match dropEquals data1 with
        | Some data2 => data2
        | None => data1
        end
    | None => data
    end
  else data.

(** Steps 5 to 9: the characters are read from left to right into a bit
    buffer ([buffer] holds [width] bits); 24 bits are flushed as three
    bytes; at the end 12 bits give one byte and 18 bits give two, the
    last four (resp. two) bits being discarded. *)
Fixpoint decodeLoop (data : JSString.t) (buffer : N) (width : nat)
         (output : list N) : option (list N) :=
  match data with
  | [] =>
      if (width =? 12)%nat then Some (output ++ [(buffer / 16)%N])
      else if (width =? 18)%nat
           then Some (output ++ [(buffer / 1024)%N; ((buffer / 4) mod 256)%N])
           else Some output
  | c :: data' =>
      match index c with
      | None => None
      | Some n =>
          let buffer' := (buffer * 64 + n)%N in
          let width' := (width + 6)%nat in
          if (width' =? 24)%nat
          then decodeLoop data' 0 0
                 (output ++ [(buffer' / 65536)%N; ((buffer' / 256) mod 256)%N;
                             (buffer' mod 256)%N])
          else decodeLoop data' buffer' width' output
      end
  end.

(** forgiving-base64 decode (WHATWG Infra); [None] is failure.  Lengths
    are counted in code units: a string where code units and code points
    differ holds a character outside the alphabet and fails either way. *)
Definition forgivingDecode (data : JSString.t) : option (list N) :=
  let data := filter (fun c => negb (isAsciiWhitespace c)) data in
  let data := removePadding data in
  if (List.length data mod 4 =? 1)%nat then None
  else if negb (forallb (fun c => match index c with Some _ => true | None => false end) data)
       then None
       else decodeLoop data 0 0 [].

(** [atob(data)]: the decoded bytes as a string of code units below 256;
    [None] stands for the InvalidCharacterError exception. *)
Definition atob (data : JSString.t) : option JSString.t := forgivingDecode data.

(** The character of the base64 alphabet with value [n]. *)
Definition alphabet (n : N) : N :=
  if (n <? 26)%N then (n + 65)%N
  else if (n <? 52)%N then (n + 71)%N
  else if (n <? 62)%N then (n - 4)%N
  else if (n =? 62)%N then 43%N else 47%N.

(** Standard base64 encoding with padding (RFC 4648, section 4): each
    group of three bytes is read as 24 bits and written as four 6-bit
    characters; a final group of one byte is padded with four zero bits and
    written as two characters and [==]; a final group of two bytes is
    padded with two zero bits and written as three characters and [=]. *)
Fixpoint encode (bytes : list Byte.byte) : JSString.t :=
  match bytes with
  | [] => []
  | [a] =>
      let g := (Byte.to_N a * 16)%N in
      [alphabet (g / 64); alphabet (g mod 64); 61%N; 61%N]
  | [a; b] =>
      let g := ((Byte.to_N a * 256 + Byte.to_N b) * 4)%N in
      [alphabet (g / 4096); alphabet ((g / 64) mod 64); alphabet (g mod 64);
       61%N]
  | a :: b :: c :: rest =>
      let g := (Byte.to_N a * 65536 + Byte.to_N b * 256 + Byte.to_N c)%N in
      alphabet (g / 262144) :: alphabet ((g / 4096) mod 64)
        :: alphabet ((g / 64) mod 64) :: alphabet (g mod 64) :: encode rest
  end.

End Base64.

(* ===================================================================== *)
(** ** Blobs and [base64ToBlob] *)
(* ===================================================================== *)

Record Blob := { blobBytes : list Byte.byte; blobType : JSString.t }.

Definition asciiLower (c : N) : N :=
  if (65 <=? c)%N && (c <=? 90)%N then (c + 32)%N else c.

(** The [type] option of the Blob constructor (File API): a type with a
    character outside U+0020..U+007E becomes the empty string, any other
    one is converted to ASCII lowercase. *)
Definition normalizeType (t : JSString.t) : JSString.t :=
  if forallb (fun c => (32 <=? c)%N && (c <=? 126)%N) t
  then map asciiLower t else [].

(** [new Blob(parts, { type })], for parts that are byte arrays. *)
Definition newBlob (parts : list (list Byte.byte)) (type : JSString.t) : Blob :=
  {| blobBytes := List.concat parts; blobType := normalizeType type |}.

(** An element of a JavaScript array of numbers; [None] is a hole. *)
Definition element := option N.

(** [arr[i] = v]: inside the array the element is replaced, past its end
    the array is extended with holes up to index [i]. *)
Fixpoint setIndex (arr : list element) (i : nat) (v : element) : list element :=
  match i, arr with
  | O, [] => [v]
  | O, _ :: arr' => v :: arr'
  | S i', [] => None :: setIndex [] i' v
  | S i', x :: arr' => x :: setIndex arr' i' v
  end.

(** [s.charCodeAt(i)]; [None] is NaN. *)
Definition charCodeAt (s : JSString.t) (i : nat) : element := nth_error s i.

(** ToUint8, as [new Uint8Array(array)] applies it to each element. *)
Definition toUint8 (v : element) : Byte.byte :=
  match v with
  | None => Byte.x00
  | Some n => match Byte.of_N (n mod 256) with Some b => b | None => Byte.x00 end
  end.

(** The loop [for (let i = 0; i < byteCharacters.length; i += 1)], with
    [n] the number of iterations left. *)
Fixpoint fillLoop (byteCharacters : JSString.t) (byteNumbers : list element)
         (i n : nat) : list element :=
  match n with
  | O => byteNumbers
  | S n' =>
      fillLoop byteCharacters
        (setIndex byteNumbers i (charCodeAt byteCharacters i)) (i + 1) n'
  end.

(** [const base64ToBlob = (base64, type) => { ... }]; [None] is the
    exception of [atob]. *)
Definition base64ToBlob (base64 type : JSString.t) : option Blob :=
  match Base64.atob base64 with
  | None => None
  | Some byteCharacters =>
      let byteNumbers := repeat (None : element) (List.length byteCharacters) in
      let byteNumbers :=
        fillLoop byteCharacters byteNumbers 0 (List.length byteCharacters) in
      Some (newBlob [map toUint8 byteNumbers] type)
  end.

(* ===================================================================== *)
(** ** JSON values as [response.json()] yields them *)
(* ===================================================================== *)

Inductive json : Type :=
| JNull
| JBool (b : bool)
| JNumber (x : float)
| JString (s : JSString.t)
| JArray (items : list json)
| JObject (fields : list (JSString.t * json)).
(* [fields] lists the own properties of the object, each key once. *)

(** A JavaScript value read from such data; [None] is [undefined]. *)
Definition value := option json.

Definition ToBoolean (v : value) : bool :=
  match v with
  | None => false
  | Some JNull => false
  | Some (JBool b) => b
  | Some (JNumber x) => negb (PrimFloat.eqb x 0 || PrimFloat.is_nan x)
  | Some (JString s) => negb (Nat.eqb (List.length s) 0)
  | Some (JArray _) => true
  | Some (JObject _) => true
  end.

(** ToString of the values of JSON data, when the conversion returns (see
    [toStringThrows] below). *)
Fixpoint ToStringJson `{Engine} (v : json) : JSString.t :=
  match v with
  | JNull => JSString.lit "null"
  | JBool true => JSString.lit "true"
  | JBool false => JSString.lit "false"
  | JNumber x => NumberToString x
  | JString s => s
  | JArray items =>
      (fix join (l : list json) : JSString.t :=
         match l with
         | [] => []
         | v :: l' =>
             (match v with JNull => [] | _ => ToStringJson v end)
               ++ match l' with [] => [] | _ => 44%N :: join l' end
         end) items
  | JObject _ => JSString.lit "[object Object]"
  end.

Definition ToString `{Engine} (v : value) : JSString.t :=
  match v with
  | None => JSString.lit "undefined"
  | Some j => ToStringJson j
  end.

Definition eqString (a b : JSString.t) : bool :=
  if list_eq_dec N.eq_dec a b then true else false.

Fixpoint lookup (key : JSString.t) (fields : list (JSString.t * json)) : value :=
  match fields with
  | [] => None
  | (k, v) :: fields' => if eqString k key then Some v else lookup key fields'
  end.

(** Whether ToString throws.  No JSON value is callable, so an object
    with an own member [toString] has no usable [toString], and its
    [valueOf], own or inherited, gives no primitive either: the conversion
    throws a TypeError.  An array is converted by [join], which converts
    its elements. *)
Fixpoint throwsJson (v : json) : bool :=
  match v with
  | JArray items =>
      (fix any (l : list json) : bool :=
         match l with
         | [] => false
         | x :: l' => throwsJson x || any l'
         end) items
  | JObject fields =>
      match lookup (JSString.lit "toString") fields with
      | Some _ => true
      | None => false
      end
  | _ => false
  end.

Definition toStringThrows (v : value) : bool :=
  match v with
  | None => false
  | Some j => throwsJson j
  end.

(* ===================================================================== *)
(** ** Effects: the host, the trace and the monad of async functions *)
(* ===================================================================== *)

Inductive error : Type :=
| TypeError
| SyntaxError
| InvalidCharacterError
| EncodingError
| HostError (code : N).

(** How an (awaited) computation completes: with a value, or abruptly with
    a thrown error (a rejected promise). *)
Inductive completion (A : Type) : Type :=
| Normal (a : A)
| Throw (e : error).
Arguments Normal {A} a.
Arguments Throw {A} e.

(** Decoded PCM audio. *)
Inductive AudioBuffer : Type := PCM (channels : list (list float)).

(** A [blob:] URL made by [URL.createObjectURL]. *)
Inductive url : Type := ObjectURL (id : nat).

Inductive node : Type := SourceNode | PannerNode | DestinationNode.

(** The observable effects of the playback path, in program order. *)
Inductive event : Type :=
| PostTts (text : JSString.t)
| CreateObjectURL (b : Blob)
| SetAudioSrc (u : url)
| NewAudioContext
| FetchUrl (u : url)
| DecodeAudioData (bytes : list Byte.byte)
| CreateBufferSource
| SetSourceBuffer (b : AudioBuffer)
| CreateStereoPanner
| SetPan (v : float)
| Connect (from to : node)
| Start (when : float)
| ConsoleError (e : error).

(** What the TTS endpoint answers: [fetch] rejects, or it resolves and
    [response.json()] rejects, or the body parses to [data]. *)
Inductive ttsAnswer : Type :=
| FetchRejects (e : error)
| JsonRejects (e : error)
| JsonData (data : json).

(** The outside world of one run. *)
Record world := {
  tts : JSString.t -> ttsAnswer;
  audioContextFailure : option error;
  decodeAudioData : list Byte.byte -> option AudioBuffer
}.

Record state := {
  trace : list event;
  objectURLs : list Blob
}.

Definition M (A : Type) : Type := world -> state -> completion A * state.

Definition ret {A} (a : A) : M A := fun _ st => (Normal a, st).

Definition bind {A B} (c : M A) (k : A -> M B) : M B :=
  fun w st =>
    match c w st with
    | (Normal a, st') => k a w st'
    | (Throw e, st') => (Throw e, st')
    end.

Definition throw {A} (e : error) : M A := fun _ st => (Throw e, st).

(** [try { body } catch (error) { handler }]. *)
Definition tryCatch {A} (body : M A) (handler : error -> M A) : M A :=
  fun w st =>
    match body w st with
    | (Normal a, st') => (Normal a, st')
    | (Throw e, st') => handler e w st'
    end.

Declare Scope js_scope.
Delimit Scope js_scope with js.
Notation "x <- c ;; k" := (bind c (fun x => k))
  (at level 61, c at next level, right associativity) : js_scope.
Notation "c ;; k" := (bind c (fun _ => k))
  (at level 61, right associativity) : js_scope.
Local Open Scope js_scope.

Definition emit (ev : event) : M unit :=
  fun _ st => (Normal tt, {| trace := trace st ++ [ev]; objectURLs := objectURLs st |}).

Definition ask : M world := fun w st => (Normal w, st).

(** [await fetch("/api/tts", { method: "POST", ..., body:
    JSON.stringify({ text, urgency: "normal" }) })]. *)
Definition fetchTts (text : JSString.t) : M ttsAnswer :=
  emit (PostTts text) ;;
  w <- ask ;;
  match tts w text with
  | FetchRejects e => throw e
  | answer => ret answer
  end.

(** [await response.json()]. *)
Definition responseJson (response : ttsAnswer) : M json :=
  match response with
  | FetchRejects e => throw e
  | JsonRejects e => throw e
  | JsonData data => ret data
  end.

(** [data.key] on data that is not [null]: the own property of an
    object, [undefined] on anything else. *)
Definition property (key : string) (data : json) : value :=
  match data with
  | JObject fields => lookup (JSString.lit key) fields
  | _ => None
  end.

(** [data.key]: a TypeError on [null]. *)
Definition getProperty (data : json) (key : string) : M value :=
  match data with
  | JNull => throw TypeError
  | _ => ret (property key data)
  end.

(** [URL.createObjectURL(blob)]. *)
Definition createObjectURL (b : Blob) : M url :=
  fun _ st =>
    (Normal (ObjectURL (List.length (objectURLs st))),
     {| trace := trace st ++ [CreateObjectURL b];
        objectURLs := objectURLs st ++ [b] |}).

(** [new AudioContext()]. *)
Definition newAudioContext : M unit :=
  emit NewAudioContext ;;
  w <- ask ;;
  match audioContextFailure w with
  | Some e => throw e
  | None => ret tt
  end.

(** [await fetch(audioUrl)] followed by [await response.arrayBuffer()]:
    the bytes of the blob the URL stands for; the fetch of a URL that
    stands for nothing rejects with a TypeError. *)
Definition fetchArrayBuffer (u : url) : M (list Byte.byte) :=
  emit (FetchUrl u) ;;
  fun _ st =>
    match u with
    | ObjectURL id =>
        match nth_error (objectURLs st) id with
        | Some b => (Normal (blobBytes b), st)
        | None => (Throw TypeError, st)
        end
    end.

(** [await audioContext.decodeAudioData(buffer)]: rejects with an
    EncodingError when the bytes are not audio the host can decode. *)
Definition decode (buffer : list Byte.byte) : M AudioBuffer :=
  emit (DecodeAudioData buffer) ;;
  w <- ask ;;
  match decodeAudioData w buffer with
  | Some decoded => ret decoded
  | None => throw EncodingError
  end.

(* ===================================================================== *)
(** ** The playback driver and its caller *)
(* ===================================================================== *)

(** [const playSpatial = async (audioUrl, text) => { ... }]. *)
Definition playSpatial `{Engine} (audioUrl : url) (text : JSString.t) : M unit :=
  newAudioContext ;;
  buffer <- fetchArrayBuffer audioUrl ;;
  decoded <- decode buffer ;;
  emit CreateBufferSource ;;
  emit (SetSourceBuffer decoded) ;;
  emit CreateStereoPanner ;;
  emit (SetPan (extractPan text)) ;;
  emit (Connect SourceNode PannerNode) ;;
  emit (Connect PannerNode DestinationNode) ;;
  emit (Start 0%float).

(** [const speakDescription = async (text) => { ... }].  The call
    [atob(base64)] inside [base64ToBlob] first converts its argument to a
    string, which may throw. *)
Definition speakDescription `{Engine} (text : JSString.t) : M unit :=
  if negb (ToBoolean (Some (JString text))) then ret tt
  else
    tryCatch
      (response <- fetchTts text ;;
       data <- responseJson response ;;
       audioBase64 <- getProperty data "audioBase64" ;;
       if negb (ToBoolean audioBase64) then ret tt
       else if toStringThrows audioBase64 then throw TypeError
       else
         match base64ToBlob (ToString audioBase64) (JSString.lit "audio/mpeg") with
         | None => throw InvalidCharacterError
         | Some audioBlob =>
             audioUrl <- createObjectURL audioBlob ;;
             emit (SetAudioSrc audioUrl) ;;
             playSpatial audioUrl text
         end)
      (fun error => emit (ConsoleError error)).

(* ===================================================================== *)
(** ** Auxiliary notions for the proofs *)
(* ===================================================================== *)

(** The [\b] assertion at index [x]. *)
Definition boundary (Input : JSString.t) (x : Z) : bool :=
  xorb (IsWordChar Input (x - 1)) (IsWordChar Input x).

(** The matcher of [\b<phrase>\b] at index [x]. *)
Definition phraseAt `{Engine} (phrase : string) (Input : JSString.t) (x : Z)
  : option Z :=
  if boundary Input x
  then m (Lit phrase) Input true x
         (fun z => if boundary Input z then Some z else None)
  else None.

(** [matchPrefix s rest]: [rest] starts with the characters of [s] up to
    canonicalization; the result is what follows them. *)
Fixpoint matchPrefix `{Engine} (s : list N) (rest : JSString.t)
  : option JSString.t :=
  match s with
  | [] => Some rest
  | a :: s' =>
      match rest with
      | [] => None
      | ch :: rest' =>
          if (Canonicalize true ch =? Canonicalize true a)%N
          then matchPrefix s' rest' else None
      end
  end.

(** A phrase the proofs can handle: ASCII, and with a word character at
    both ends. *)
Definition wordPhrase (phrase : string) : bool :=
  forallb (fun a => (a <? 128)%N) (JSString.lit phrase)
  && match JSString.lit phrase with a :: _ => wordCharacter a | [] => false end
  && match rev (JSString.lit phrase) with a :: _ => wordCharacter a | [] => false end.

(** The two regular expressions of [extractPan]. *)
Definition rightRegExp : regexp :=
  {| source := Seq WordBoundary
                 (Seq (Group (Alt (Chr "2") (Alt (Chr "3") (Chr "4"))))
                      (Seq (Lit " o'clock") WordBoundary));
     ignoreCaseFlag := true |}.

Definition leftRegExp : regexp :=
  {| source := Seq WordBoundary
                 (Seq (Group (Alt (Chr "8") (Alt (Chr "9") (Lit "10"))))
                      (Seq (Lit " o'clock") WordBoundary));
     ignoreCaseFlag := true |}.

(** The state [st] once the events [evs] have happened. *)
Definition after (st : state) (evs : list event) : state :=
  {| trace := trace st ++ evs; objectURLs := objectURLs st |}.

Definition isSetPan (ev : event) : bool :=
  match ev with SetPan _ => true | _ => false end.

(** The scenarios of the specification, and a text with other clock
    numbers. *)
Definition scenario1 : JSString.t :=
  JSString.lit "Coffee mug at 2 o'clock, 3 feet on your right".
Definition scenario2 : JSString.t :=
  JSString.lit "Chair at 9 o'clock, 5 feet on your left".
Definition scenario3 : JSString.t :=
  JSString.lit "Clear path ahead, no obstacles".
Definition scenario4 : JSString.t :=
  JSString.lit "Exit at 9 o'clock; stairs at 3 o'clock, CAUTION".

Definition otherClockNumbers : JSString.t :=
  JSString.lit "Door at 12 o'clock, window at 7 o'clock".

(** The characters of [Base64.encode] before the padding, and the
    padding. *)
Fixpoint unpadded (bytes : list Byte.byte) : JSString.t :=
  match bytes with
  | [] => []
  | [a] =>
      let g := (Byte.to_N a * 16)%N in
      [Base64.alphabet (g / 64); Base64.alphabet (g mod 64)]
  | [a; b] =>
      let g := ((Byte.to_N a * 256 + Byte.to_N b) * 4)%N in
      [Base64.alphabet (g / 4096); Base64.alphabet ((g / 64) mod 64);
       Base64.alphabet (g mod 64)]
  | a :: b :: c :: rest =>
      let g := (Byte.to_N a * 65536 + Byte.to_N b * 256 + Byte.to_N c)%N in
      Base64.alphabet (g / 262144) :: Base64.alphabet ((g / 4096) mod 64)
        :: Base64.alphabet ((g / 64) mod 64) :: Base64.alphabet (g mod 64)
        :: unpadded rest
  end.

(** A character of the base64 alphabet. *)
Definition plain (c : N) : Prop := Base64.index c <> None.

Fixpoint padding (bytes : list Byte.byte) : JSString.t :=
  match bytes with
  | [] => []
  | [_] => [61%N; 61%N]
  | [_; _] => [61%N]
  | _ :: _ :: _ :: rest => padding rest
  end.

(** Hosts and states to run the playback path on. *)
Definition mpegBlob : Blob :=
  {| blobBytes := [Byte.x00; Byte.x00; Byte.x00];
     blobType := JSString.lit "audio/mpeg" |}.

Definition emptyState : state := {| trace := []; objectURLs := [] |}.

Definition oneBlobState : state := {| trace := []; objectURLs := [mpegBlob] |}.

(** The answer of the endpoint when it has synthesized nothing. *)
Definition mockAnswer : json :=
  JObject [(JSString.lit "audioBase64", JString []);
           (JSString.lit "note", JString (JSString.lit "mock"))].

(** The endpoint answers without audio; nothing decodes. *)
Definition silentWorld : world :=
  {| tts := fun _ => JsonData mockAnswer;
     audioContextFailure := None;
     decodeAudioData := fun _ => None |}.

(** The endpoint answers with three zero bytes, which are not audio. *)
Definition noiseWorld : world :=
  {| tts := fun _ =>
       JsonData (JObject [(JSString.lit "audioBase64", JString (JSString.lit "AAAA"))]);
     audioContextFailure := None;
     decodeAudioData := fun _ => None |}.

(** Every payload decodes. *)
Definition playingWorld : world :=
  {| tts := fun _ =>
       JsonData (JObject [(JSString.lit "audioBase64", JString (JSString.lit "AAAA"))]);
     audioContextFailure := None;
     decodeAudioData := fun _ => Some (PCM []) |}.

(** An engine without case pairs outside ASCII, to run the model. *)
Definition asciiEngine : Engine :=
  {| toUppercaseNonAscii := fun ch => [ch];
     NumberToString := fun _ => JSString.lit "0" |}.

(* ===================================================================== *)
(** ** Further notions for the properties of the code *)
(* ===================================================================== *)

(** A character that separates sentences: not a word character, not a
    space and not an apostrophe (a full stop, a comma, a semicolon, a line
    feed, ...). *)
Definition isSeparator (c : N) : bool :=
  negb (Phrase.isWordChar c) && negb (c =? 32)%N && negb (c =? 39)%N.

(** The pan of two cues together: right before left before center. *)
Definition mergePan (p q : float) : float :=
  if PrimFloat.ltb 0%float p || PrimFloat.ltb 0%float q then 0.6%float
  else if PrimFloat.ltb p 0%float || PrimFloat.ltb q 0%float then (- 0.6)%float
  else 0%float.

(** A phrase made of word characters, spaces and apostrophes. *)
Definition plainPhrase (phrase : string) : bool :=
  forallb (fun a => Phrase.isWordChar a || (a =? 32)%N || (a =? 39)%N)
    (JSString.lit phrase)
  && negb (Nat.eqb (String.length phrase) 0).

Definition isStart (ev : event) : bool :=
  match ev with Start _ => true | _ => false end.

Definition isConsoleError (ev : event) : bool :=
  match ev with ConsoleError _ => true | _ => false end.

Definition isPostTts (ev : event) : bool :=
  match ev with PostTts _ => true | _ => false end.

(** The events of a playback that starts: the audio graph is built, the
    pan is set and the source is started. *)
Definition playbackEvents (u : url) (bytes : list Byte.byte)
           (decoded : AudioBuffer) (pan : float) : list event :=
  [NewAudioContext; FetchUrl u; DecodeAudioData bytes; CreateBufferSource;
   SetSourceBuffer decoded; CreateStereoPanner; SetPan pan;
   Connect SourceNode PannerNode; Connect PannerNode DestinationNode;
   Start 0%float].

(** The answer of the endpoint that carries the bytes [bytes]. *)
Definition audioAnswer (bytes : list Byte.byte) : json :=
  JObject [(JSString.lit "audioBase64", JString (Base64.encode bytes))].

(** A host on which the endpoint answers with three zero bytes and
    nothing fails. *)
Definition zeroBytes : list Byte.byte := [Byte.x00; Byte.x00; Byte.x00].

Definition goodWorld : world :=
  {| tts := fun _ => JsonData (audioAnswer zeroBytes);
     audioContextFailure := None;
     decodeAudioData := fun _ => Some (PCM []) |}.

(** Hosts on which the request fails, and on which the answer is not
    base64. *)
Definition offlineWorld : world :=
  {| tts := fun _ => FetchRejects TypeError;
     audioContextFailure := None;
     decodeAudioData := fun _ => Some (PCM []) |}.

Definition garbledWorld : world :=
  {| tts := fun _ =>
       JsonData (JObject [(JSString.lit "audioBase64", JString (JSString.lit "%%%"))]);
     audioContextFailure := None;
     decodeAudioData := fun _ => Some (PCM []) |}.


(** What the bit buffer of the decoder holds: [width] is 0, 6, 12 or 18
    and [buffer] fits in [width] bits. *)
Definition bufferFits (buffer : N) (width : nat) : Prop :=
  (width = 0%nat /\ buffer = 0%N) \/ (width = 6%nat /\ (buffer < 64)%N)
  \/ (width = 12%nat /\ (buffer < 4096)%N)
  \/ (width = 18%nat /\ (buffer < 262144)%N).

(** The code units that are not ASCII white space. *)
Definition stripWhitespace (data : JSString.t) : JSString.t :=
  filter (fun c => negb (Base64.isAsciiWhitespace c)) data.


(* ===================================================================== *)
(** ** Data URLs and [blobToBase64] *)
(* ===================================================================== *)

(** [s.split(sep)] for a separator of one code unit: the pieces of [s]
    between the occurrences of [sep]; the empty string gives one empty
    piece. *)
Fixpoint split (sep : N) (s : JSString.t) : list JSString.t :=
  match s with
  | [] => [[]]
  | c :: s' =>
      if (c =? sep)%N then [] :: split sep s'
      else match split sep s' with
           | piece :: pieces => (c :: piece) :: pieces
           | [] => [[c]]
           end
  end.

(** [pieces[i]]; [None] is [undefined]. *)
Definition at_ (pieces : list JSString.t) (i : nat) : value :=
  match nth_error pieces i with
  | Some piece => Some (JString piece)
  | None => None
  end.

(** The base64 data URL of [bytes] with the media type [mediaType]
    (RFC 2397), as [FileReader.readAsDataURL] and [canvas.toDataURL] make
    them. *)
Definition dataURL (mediaType : JSString.t) (bytes : list Byte.byte) : JSString.t :=
  JSString.lit "data:" ++ mediaType ++ JSString.lit ";base64," ++ Base64.encode bytes.

(** [const blobToBase64 = (blob) => new Promise(...)], as a function of
    what the reader has in [reader.result] when [onloadend] fires: the data
    URL of the blob, or [null] after a failed read.  The promise resolves
    with [reader.result.split(",")[1]]; on [null] the handler throws and
    the promise stays pending, which is [None]. *)
Definition blobToBase64 (result : option JSString.t) : option value :=
  match result with
  | None => None
  | Some url => Some (at_ (split 44%N url) 1)
  end.


(* ===================================================================== *)
(** ** The page: module variables, handlers and what they do to the DOM *)
(* ===================================================================== *)

(** [mediaRecorder.state]. *)
Inductive recorderState : Type := Inactive | Recording | Paused.

Inductive button : Type := StartButton | StopButton | AnalyzeButton.

(** What a handler does to the document and asks of the host, in program
    order. *)
Inductive pageEvent : Type :=
| GetUserMedia (audio : bool)
| SetVideoSource
| SetStatusText (text : JSString.t)
| SetTranscriptText (text : JSString.t)
| SetDescriptionText (text : JSString.t)
| SetDisabled (b : button) (disabled : bool)
| NewMediaRecorder
| RecorderStart
| RecorderStop
| ResizeCanvas (width height : N)
| DrawImage (width height : N)
| PostTranscribe (audioBase64 : value)
| PostAnalyze (imageBase64 : value).

(** What the analysis endpoint answers: [fetch] rejects, the body is not
    JSON, it is [null], or it is an object.  The member [description] of
    the object, when present, is a string, as the relay sends it; [others]
    are the remaining members. *)
Inductive analysis : Type :=
| AnalysisRejects (e : error)
| AnalysisNotJson (e : error)
| AnalysisNull
| AnalysisObject (description : option JSString.t)
                 (others : list (JSString.t * json)).

(** The host of the page.  [camera], [microphone], [recorderFailure] and
    [startFailure] say whether [getUserMedia], [new MediaRecorder] and
    [mediaRecorder.start] fail; [videoWidth] and [videoHeight] are those of
    the preview; [toDataURL] is the JPEG data URL of the canvas at a size;
    [readAsDataURL] is what the file reader holds at [loadend]. *)
Record host := {
  camera : option error;
  microphone : option error;
  recorderFailure : option error;
  startFailure : option error;
  videoWidth : N;
  videoHeight : N;
  toDataURL : N -> N -> JSString.t;
  readAsDataURL : Blob -> option JSString.t;
  transcribe : value -> ttsAnswer;
  analyze : value -> analysis;
  speech : world
}.

(** The module variables ([undefined] for [mediaRecorder] is [None]), the
    log of the page and the state of the playback path. *)
Record page := {
  mediaRecorder : option recorderState;
  audioChunks : list Blob;
  lastAudioBase64 : value;
  lastImageBase64 : value;
  log : list pageEvent;
  audio : state
}.

(** The page when the script has been loaded. *)
Definition initialPage : page :=
  {| mediaRecorder := None; audioChunks := [];
     lastAudioBase64 := Some JNull; lastImageBase64 := Some JNull;
     log := []; audio := {| trace := []; objectURLs := [] |} |}.

(** How an async handler ends: its promise is fulfilled, rejected, or
    stays pending for ever. *)
Inductive settled (A : Type) : Type :=
| Fulfilled (a : A)
| Rejected (e : error)
| Pending.
Arguments Fulfilled {A} a.
Arguments Rejected {A} e.
Arguments Pending {A}.

Definition P (A : Type) : Type := host -> page -> settled A * page.

Definition retP {A} (a : A) : P A := fun _ p => (Fulfilled a, p).

Definition bindP {A B} (c : P A) (k : A -> P B) : P B :=
  fun h p =>
    match c h p with
    | (Fulfilled a, p') => k a h p'
    | (Rejected e, p') => (Rejected e, p')
    | (Pending, p') => (Pending, p')
    end.

Definition throwP {A} (e : error) : P A := fun _ p => (Rejected e, p).

Definition tryCatchP {A} (body : P A) (handler : error -> P A) : P A :=
  fun h p =>
    match body h p with
    | (Rejected e, p') => handler e h p'
    | other => other
    end.

Declare Scope page_scope.
Delimit Scope page_scope with page.
Notation "x <- c ;; k" := (bindP c (fun x => k))
  (at level 61, c at next level, right associativity) : page_scope.
Notation "c ;; k" := (bindP c (fun _ => k))
  (at level 61, right associativity) : page_scope.

Definition askP : P host := fun h p => (Fulfilled h, p).

Definition getPage : P page := fun _ p => (Fulfilled p, p).

Definition emitP (ev : pageEvent) : P unit :=
  fun _ p =>
    (Fulfilled tt,
     {| mediaRecorder := mediaRecorder p; audioChunks := audioChunks p;
        lastAudioBase64 := lastAudioBase64 p; lastImageBase64 := lastImageBase64 p;
        log := log p ++ [ev]; audio := audio p |}).

Definition setMediaRecorder (r : option recorderState) : P unit :=
  fun _ p =>
    (Fulfilled tt,
     {| mediaRecorder := r; audioChunks := audioChunks p;
        lastAudioBase64 := lastAudioBase64 p; lastImageBase64 := lastImageBase64 p;
        log := log p; audio := audio p |}).

Definition setAudioChunks (chunks : list Blob) : P unit :=
  fun _ p =>
    (Fulfilled tt,
     {| mediaRecorder := mediaRecorder p; audioChunks := chunks;
        lastAudioBase64 := lastAudioBase64 p; lastImageBase64 := lastImageBase64 p;
        log := log p; audio := audio p |}).

Definition setLastAudioBase64 (v : value) : P unit :=
  fun _ p =>
    (Fulfilled tt,
     {| mediaRecorder := mediaRecorder p; audioChunks := audioChunks p;
        lastAudioBase64 := v; lastImageBase64 := lastImageBase64 p;
        log := log p; audio := audio p |}).

Definition setLastImageBase64 (v : value) : P unit :=
  fun _ p =>
    (Fulfilled tt,
     {| mediaRecorder := mediaRecorder p; audioChunks := audioChunks p;
        lastAudioBase64 := lastAudioBase64 p; lastImageBase64 := v;
        log := log p; audio := audio p |}).

(** An async function of the playback path, run from the page. *)
Definition liftAudio {A} (c : M A) : P A :=
  fun h p =>
    let '(r, st) := c (speech h) (audio p) in
    (match r with Normal a => Fulfilled a | Throw e => Rejected e end,
     {| mediaRecorder := mediaRecorder p; audioChunks := audioChunks p;
        lastAudioBase64 := lastAudioBase64 p; lastImageBase64 := lastImageBase64 p;
        log := log p; audio := st |}).

(** [await promise] on a promise that is fulfilled or stays pending. *)
Definition awaitP {A} (promise : option A) : P A :=
  fun _ p =>
    match promise with
    | Some a => (Fulfilled a, p)
    | None => (Pending, p)
    end.

(** [a || b]. *)
Definition orValue (a b : value) : value := if ToBoolean a then a else b.

(** [!(lastAudioBase64 && lastImageBase64)]. *)
Definition analyzeDisabled (p : page) : bool :=
  negb (ToBoolean (lastAudioBase64 p) && ToBoolean (lastImageBase64 p)).

Local Open Scope page_scope.

(** [const setStatus = (text) => { statusEl.textContent = text; }]. *)
Definition setStatus (text : string) : P unit :=
  emitP (SetStatusText (JSString.lit text)).

(** [const initCamera = async () => { ... }]. *)
Definition initCamera : P unit :=
  tryCatchP
    (emitP (GetUserMedia false) ;;
     h <- askP ;;
     match camera h with
     | Some e => throwP e
     | None => emitP SetVideoSource
     end)
    (fun _ => setStatus "Camera access denied.").

(** [mediaRecorder.ondataavailable = (event) => { ... }], on the chunk
    [event.data]. *)
Definition onDataAvailable (data : Blob) : P unit :=
  if (0 <? List.length (blobBytes data))%nat
  then p <- getPage ;; setAudioChunks (audioChunks p ++ [data])
  else retP tt.

(** [const transcribeAudio = async () => { ... }].  The assignment to
    [textContent] converts the value to a string, which may throw. *)
Definition transcribeAudio `{Engine} : P unit :=
  tryCatchP
    (p <- getPage ;;
     emitP (PostTranscribe (lastAudioBase64 p)) ;;
     h <- askP ;;
     match transcribe h (lastAudioBase64 p) with
     | FetchRejects e => throwP e
     | JsonRejects e => throwP e
     | JsonData JNull => throwP TypeError
     | JsonData data =>
         let shown :=
           orValue (property "text" data)
             (orValue (property "error" data)
                (Some (JString (JSString.lit "Transcription failed")))) in
         if toStringThrows shown then throwP TypeError
         else
           emitP (SetTranscriptText (ToString shown)) ;;
           setStatus "Audio ready."
     end)
    (fun _ => emitP (SetTranscriptText (JSString.lit "Transcription failed."))).

(** [mediaRecorder.onstop = async () => { ... }]. *)
Definition onStop `{Engine} : P unit :=
  p <- getPage ;;
  let blob := newBlob (map blobBytes (audioChunks p)) (JSString.lit "audio/webm") in
  h <- askP ;;
  base64 <- awaitP (blobToBase64 (readAsDataURL h blob)) ;;
  setLastAudioBase64 base64 ;;
  emitP (SetTranscriptText (JSString.lit "Transcribing...")) ;;
  transcribeAudio ;;
  p <- getPage ;;
  emitP (SetDisabled AnalyzeButton (analyzeDisabled p)).

(** [const startRecording = async () => { ... }]. *)
Definition startRecording : P unit :=
  tryCatchP
    (emitP (GetUserMedia true) ;;
     h <- askP ;;
     match microphone h with
     | Some e => throwP e
     | None =>
         emitP NewMediaRecorder ;;
         match recorderFailure h with
         | Some e => throwP e
         | None =>
             setMediaRecorder (Some Inactive) ;;
             setAudioChunks [] ;;
             emitP RecorderStart ;;
             match startFailure h with
             | Some e => throwP e
             | None =>
                 setMediaRecorder (Some Recording) ;;
                 setStatus "Recording..." ;;
                 emitP (SetDisabled StartButton true) ;;
                 emitP (SetDisabled StopButton false)
             end
         end
     end)
    (fun _ => setStatus "Microphone access denied.").

(** [const stopRecording = () => { ... }]. *)
Definition stopRecording : P unit :=
  p <- getPage ;;
  match mediaRecorder p with
  | None | Some Inactive => retP tt
  | Some _ =>
      emitP RecorderStop ;;
      setMediaRecorder (Some Inactive) ;;
      setStatus "Processing audio..."
  end ;;
  emitP (SetDisabled StopButton true) ;;
  emitP (SetDisabled StartButton false).

(** [const captureFrame = () => { ... }]. *)
Definition captureFrame : P unit :=
  h <- askP ;;
  if (videoWidth h =? 0)%N then retP tt
  else
    emitP (ResizeCanvas (videoWidth h) (videoHeight h)) ;;
    emitP (DrawImage (videoWidth h) (videoHeight h)) ;;
    setLastImageBase64
      (at_ (split 44%N (toDataURL h (videoWidth h) (videoHeight h))) 1) ;;
    setStatus "Frame captured." ;;
    p <- getPage ;;
    emitP (SetDisabled AnalyzeButton (analyzeDisabled p)).

(** [const analyzeScene = async () => { ... }].  The assignment to
    [textContent] converts the value to a string, which may throw. *)
Definition analyzeScene `{Engine} : P unit :=
  p <- getPage ;;
  if negb (ToBoolean (lastImageBase64 p)) then retP tt
  else
    emitP (SetDescriptionText (JSString.lit "Analyzing...")) ;;
    setStatus "Analyzing scene..." ;;
    tryCatchP
      (emitP (PostAnalyze (lastImageBase64 p)) ;;
       h <- askP ;;
       match analyze h (lastImageBase64 p) with
       | AnalysisRejects e => throwP e
       | AnalysisNotJson e => throwP e
       | AnalysisNull => throwP TypeError
       | AnalysisObject description others =>
           let shown :=
             orValue (option_map JString description)
               (orValue (lookup (JSString.lit "error") others)
                  (Some (JString (JSString.lit "No description.")))) in
           if toStringThrows shown then throwP TypeError
           else
             emitP (SetDescriptionText (ToString shown)) ;;
             liftAudio
               (speakDescription
                  (match description with Some text => text | None => [] end)) ;;
             setStatus "Analysis complete."
       end)
      (fun _ => emitP (SetDescriptionText (JSString.lit "Analysis failed."))).

Local Close Scope page_scope.


(** The page [p] once the events [evs] have been logged. *)
Definition logged (p : page) (evs : list pageEvent) : page :=
  {| mediaRecorder := mediaRecorder p; audioChunks := audioChunks p;
     lastAudioBase64 := lastAudioBase64 p; lastImageBase64 := lastImageBase64 p;
     log := log p ++ evs; audio := audio p |}.

(** The page [p] with the playback path in the state [st]. *)
Definition spoken (p : page) (st : state) : page :=
  {| mediaRecorder := mediaRecorder p; audioChunks := audioChunks p;
     lastAudioBase64 := lastAudioBase64 p; lastImageBase64 := lastImageBase64 p;
     log := log p; audio := st |}.

Definition isAnalyzeWrite (ev : pageEvent) : bool :=
  match ev with SetDisabled AnalyzeButton _ => true | _ => false end.

Definition isButtonWrite (ev : pageEvent) : bool :=
  match ev with SetDisabled _ _ => true | _ => false end.


(** The text the page shows for an answer of the analysis endpoint:
    [data.description || data.error || "No description."]. *)
Definition shownDescription `{Engine} (description : option JSString.t)
           (others : list (JSString.t * json)) : JSString.t :=
  ToString
    (orValue (option_map JString description)
       (orValue (lookup (JSString.lit "error") others)
          (Some (JString (JSString.lit "No description."))))).

(** Whether the conversion of that value to a string throws. *)
Definition descriptionThrows (description : option JSString.t)
           (others : list (JSString.t * json)) : bool :=
  toStringThrows
    (orValue (option_map JString description)
       (orValue (lookup (JSString.lit "error") others)
          (Some (JString (JSString.lit "No description."))))).

(** [data.description || ""]. *)
Definition spokenText (description : option JSString.t) : JSString.t :=
  match description with Some text => text | None => [] end.

(** The last value a handler has given to [analyzeBtn.disabled]. *)
Definition lastAnalyzeWrite (l : list pageEvent) : option bool :=
  fold_left
    (fun acc ev => match ev with SetDisabled AnalyzeButton d => Some d | _ => acc end)
    l None.

(** The Analyze button, once the page has set it, is enabled exactly when
    both a recording and a frame are at hand. *)
Definition buttonAgrees (p : page) : Prop :=
  match lastAnalyzeWrite (log p) with
  | Some d => d = analyzeDisabled p
  | None => True
  end.

(** The handlers of the page. *)
Inductive handler : Type :=
| InitCamera
| StartRecording
| StopRecording
| CaptureFrame
| AnalyzeScene
| DataAvailable (data : Blob)
| Stop.

Definition handle `{Engine} (a : handler) : P unit :=
  match a with
  | InitCamera => initCamera
  | StartRecording => startRecording
  | StopRecording => stopRecording
  | CaptureFrame => captureFrame
  | AnalyzeScene => analyzeScene
  | DataAvailable data => onDataAvailable data
  | Stop => onStop
  end.

(** Handlers run one after the other, each on the host of its moment. *)
Fixpoint runAll `{Engine} (steps : list (host * handler)) (p : page) : page :=
  match steps with
  | [] => p
  | (h, a) :: steps' => runAll steps' (snd (handle a h p))
  end.

(** A host to run the page on: camera and microphone are granted, the
    preview is 640 by 480, the canvas encodes to three zero bytes, the
    endpoints answer and the playback path is [goodWorld]. *)
Definition goodHost : host :=
  {| camera := None; microphone := None; recorderFailure := None;
     startFailure := None; videoWidth := 640; videoHeight := 480;
     toDataURL := fun _ _ => dataURL (JSString.lit "image/jpeg") zeroBytes;
     readAsDataURL := fun b => Some (dataURL (blobType b) (blobBytes b));
     transcribe := fun _ =>
       JsonData (JObject [(JSString.lit "text", JString (JSString.lit "What do you see?"))]);
     analyze := fun _ => AnalysisObject (Some scenario1) [];
     speech := goodWorld |}.

(** The same host with the analysis endpoint unreachable. *)
Definition offlineHost : host :=
  {| camera := None; microphone := None; recorderFailure := None;
     startFailure := None; videoWidth := 640; videoHeight := 480;
     toDataURL := fun _ _ => dataURL (JSString.lit "image/jpeg") zeroBytes;
     readAsDataURL := fun b => Some (dataURL (blobType b) (blobBytes b));
     transcribe := fun _ => FetchRejects TypeError;
     analyze := fun _ => AnalysisRejects TypeError;
     speech := goodWorld |}.

(** A page with a frame and a recording at hand. *)
Definition readyPage : page :=
  {| mediaRecorder := Some Inactive; audioChunks := [];
     lastAudioBase64 := Some (JString (JSString.lit "AAAA"));
     lastImageBase64 := Some (JString (JSString.lit "AAAA"));
     log := []; audio := {| trace := []; objectURLs := [] |} |}.


(** The text the page shows for an answer of the transcription endpoint:
    [data.text || data.error || "Transcription failed"]. *)
Definition shownTranscript `{Engine} (data : json) : JSString.t :=
  ToString
    (orValue (property "text" data)
       (orValue (property "error" data)
          (Some (JString (JSString.lit "Transcription failed"))))).


(** Whether the conversion of that value to a string throws. *)
Definition transcriptThrows (data : json) : bool :=
  toStringThrows
    (orValue (property "text" data)
       (orValue (property "error" data)
          (Some (JString (JSString.lit "Transcription failed"))))).

Definition isTranscriptWrite (ev : pageEvent) : bool :=
  match ev with SetTranscriptText _ => true | _ => false end.

(** The recording as [onstop] puts it together: one blob of the type
    "audio/webm" with the bytes of the chunks, in order. *)
Definition recording (p : page) : Blob :=
  newBlob (map blobBytes (audioChunks p)) (JSString.lit "audio/webm").



Definition unreadableHost : host :=
  {| camera := None; microphone := None; recorderFailure := None;
     startFailure := None; videoWidth := 640; videoHeight := 480;
     toDataURL := fun _ _ => dataURL (JSString.lit "image/jpeg") zeroBytes;
     readAsDataURL := fun _ => None;
     transcribe := fun _ => FetchRejects TypeError;
     analyze := fun _ => AnalysisRejects TypeError;
     speech := goodWorld |}.

(** A page with two chunks of a recording. *)
Definition recordedPage : page :=
  {| mediaRecorder := Some Inactive;
     audioChunks :=
       [ {| blobBytes := [Byte.x48]; blobType := [] |};
         {| blobBytes := [Byte.x69; Byte.x21]; blobType := [] |} ];
     lastAudioBase64 := Some JNull; lastImageBase64 := Some JNull;
     log := []; audio := {| trace := []; objectURLs := [] |} |}.

(* ===================================================================== *)
(** ** The extractor as the engine runs it *)
(* ===================================================================== *)

(** [extractPan] above takes the two tests as functions of the text.  The
    language specification words them as steps on objects: every
    evaluation of a regular expression literal makes a new RegExp object
    whose property [lastIndex] is 0; [test] converts its argument to a
    string, which may throw; RegExpBuiltinExec reads [lastIndex], repeats
    the matcher over the start indices until it succeeds or the index has
    passed the end of the string, and writes [lastIndex] back when the
    flags have [g] or [y].  This module follows these steps, with the
    RegExp objects in a heap and the loop on fuel, so that a run can
    throw, can fail to return and can change an object.  The built-in
    [RegExp.prototype.test] and [RegExp.prototype.exec] are those of the
    engine: the script never replaces them. *)
Module Run.

(** How a run ends: it returns, it throws, or it is still running when
    the fuel is spent. *)
Inductive outcome (A : Type) : Type :=
| Returned (a : A)
| Thrown (e : error)
| OutOfFuel.
Arguments Returned {A} a.
Arguments Thrown {A} e.
Arguments OutOfFuel {A}.

(** A RegExp object: the slot [[RegExpMatcher]] (the pattern and the flag
    [i]), the flags [g] and [y] of [[OriginalFlags]], and the property
    [lastIndex]. *)
Record RegExpObject := {
  RegExpMatcher : regexp;
  globalFlag : bool;
  stickyFlag : bool;
  lastIndex : Z
}.

(** The RegExp objects there are; a reference to one is its index. *)
Definition heap := list RegExpObject.

Definition Run (A : Type) : Type := heap -> outcome A * heap.

Definition ret {A} (a : A) : Run A := fun h => (Returned a, h).

Definition bind {A B} (c : Run A) (k : A -> Run B) : Run B :=
  fun h =>
    match c h with
    | (Returned a, h') => k a h'
    | (Thrown e, h') => (Thrown e, h')
    | (OutOfFuel, h') => (OutOfFuel, h')
    end.

Definition throw {A} (e : error) : Run A := fun h => (Thrown e, h).

Definition outOfFuel {A} : Run A := fun h => (OutOfFuel, h).

Declare Scope run_scope.
Delimit Scope run_scope with run.
Notation "x <- c ;; k" := (bind c (fun x => k))
  (at level 61, c at next level, right associativity) : run_scope.
Notation "c ;; k" := (bind c (fun _ => k))
  (at level 61, right associativity) : run_scope.
Local Open Scope run_scope.

(** Whether the flags of a literal have the letter [c]. *)
Fixpoint hasFlag (c : ascii) (flags : string) : bool :=
  match flags with
  | EmptyString => false
  | String a flags' => Ascii.eqb a c || hasFlag c flags'
  end.

(** The evaluation of the literal [/P/flags]: a new object, with
    [lastIndex] 0. *)
Definition RegExpCreate (P : pattern) (flags : string) : Run nat :=
  fun h =>
    (Returned (List.length h),
     h ++ [{| RegExpMatcher := {| source := P; ignoreCaseFlag := hasFlag "i" flags |};
              globalFlag := hasFlag "g" flags;
              stickyFlag := hasFlag "y" flags;
              lastIndex := 0 |}]).

(** The object a reference stands for; a TypeError when it stands for no
    RegExp object. *)
Definition getObject (R : nat) : Run RegExpObject :=
  fun h =>
    match nth_error h R with
    | Some o => (Returned o, h)
    | None => (Thrown TypeError, h)
    end.

(** Set ( R, "lastIndex", v, true ). *)
Definition setLastIndex (R : nat) (v : Z) : Run unit :=
  fun h =>
    match nth_error h R with
    | Some o =>
        (Returned tt,
         firstn R h
           ++ {| RegExpMatcher := RegExpMatcher o; globalFlag := globalFlag o;
                 stickyFlag := stickyFlag o; lastIndex := v |}
           :: skipn (Datatypes.S R) h)
    | None => (Thrown TypeError, h)
    end.

(** ToLength, on an integer. *)
Definition ToLength (v : Z) : Z :=
  if (v <=? 0)%Z then 0%Z else Z.min v (2 ^ 53 - 1).

(** The loop of RegExpBuiltinExec, "Repeat, while matchSucceeded is
    false", and the steps after it; one unit of fuel for each turn.  The
    matcher of a turn is a recursion on the pattern: the patterns of this
    fragment have no quantifier. *)
Fixpoint repeatMatcher `{Engine} (fuel : nat) (R : nat) (o : RegExpObject)
         (str : JSString.t) (index : Z) : Run (option (Z * Z)) :=
  match fuel with
  | O => outOfFuel
  | Datatypes.S fuel' =>
      if (JSString.length str <? index)%Z then
        (if globalFlag o || stickyFlag o then setLastIndex R 0 else ret tt) ;;
        ret None
      else
        match m (source (RegExpMatcher o)) str (ignoreCaseFlag (RegExpMatcher o))
                index (fun y => Some y) with
        | None =>
            if stickyFlag o then setLastIndex R 0 ;; ret None
            else repeatMatcher fuel' R o str (index + 1)
        | Some e =>
            (if globalFlag o || stickyFlag o then setLastIndex R e else ret tt) ;;
            ret (Some (index, e))
        end
  end.

(** RegExpBuiltinExec ( R, S ): the start and the end of the match, or
    [None] for [null]. *)
Definition RegExpBuiltinExec `{Engine} (fuel : nat) (R : nat) (str : JSString.t)
  : Run (option (Z * Z)) :=
  o <- getObject R ;;
  let index :=
    if negb (globalFlag o) && negb (stickyFlag o) then 0%Z
    else ToLength (lastIndex o) in
  repeatMatcher fuel R o str index.

(** ToString ( argument ). *)
Definition toString `{Engine} (argument : value) : Run JSString.t :=
  if toStringThrows argument then throw TypeError else ret (ToString argument).

(** [R.test(S)], RegExp.prototype.test. *)
Definition test `{Engine} (fuel : nat) (R : nat) (S : value) : Run bool :=
  str <- toString S ;;
  result <- RegExpBuiltinExec fuel R str ;;
  ret (match result with Some _ => true | None => false end).

(** [const extractPan = (text) => { ... }], run with [fuel] for each
    test. *)
Definition extractPan `{Engine} (fuel : nat) (text : value) : Run float :=
  right <- RegExpCreate
             (Seq WordBoundary
                (Seq (Group (Alt (Chr "2") (Alt (Chr "3") (Chr "4"))))
                     (Seq (Lit " o'clock") WordBoundary))) "i" ;;
  left <- RegExpCreate
            (Seq WordBoundary
               (Seq (Group (Alt (Chr "8") (Alt (Chr "9") (Lit "10"))))
                    (Seq (Lit " o'clock") WordBoundary))) "i" ;;
  matched <- test fuel right text ;;
  if matched then ret 0.6%float
  else
    matched <- test fuel left text ;;
    if matched then ret (- 0.6)%float
    else ret 0%float.

(** The two objects a run of [extractPan] makes. *)
Definition literals : heap :=
  [ {| RegExpMatcher := rightRegExp; globalFlag := false; stickyFlag := false;
       lastIndex := 0 |};
    {| RegExpMatcher := leftRegExp; globalFlag := false; stickyFlag := false;
       lastIndex := 0 |} ].

Local Close Scope run_scope.

End Run.

(* ===================================================================== *)
(** * Proofs *)
(* ===================================================================== *)

(** Case analysis on every comparison of the goal, closed by arithmetic. *)
Ltac cases_on_comparisons :=
  repeat match goal with
    | |- context [(?a <=? ?b)%N] => destruct (N.leb_spec a b)
    | |- context [(?a <? ?b)%N] => destruct (N.ltb_spec a b)
    | |- context [(?a =? ?b)%N] => destruct (N.eqb_spec a b)
    end;
  simpl; try reflexivity; try discriminate; try lia.

(** ** Characters *)

Section Characters.
Context `{Engine}.

Lemma Canonicalize_ascii a :
  (a < 128)%N -> Canonicalize true a = asciiUpper a.
Proof.
  intros Ha. unfold Canonicalize, toUppercase. simpl.
  apply N.ltb_lt in Ha as Hb. rewrite Hb.
  replace (128 <=? a)%N with false by (symmetry; apply N.leb_gt; exact Ha).
  reflexivity.
Qed.

Lemma Canonicalize_nonascii ch :
  (128 <= ch)%N -> (128 <= Canonicalize true ch)%N.
Proof.
  intros Hch. unfold Canonicalize, toUppercase. simpl.
  replace (ch <? 128)%N with false by (symmetry; apply N.ltb_ge; exact Hch).
  destruct (toUppercaseNonAscii ch) as [|cu [|? ?]]; try exact Hch.
  apply N.leb_le in Hch as Hb. rewrite Hb. simpl.
  destruct (N.ltb_spec cu 128); [exact Hch | assumption].
Qed.

Lemma asciiUpper_lt a : (a < 128)%N -> (asciiUpper a < 128)%N.
Proof.
  unfold asciiUpper. intros Ha.
  destruct (_ && _); lia.
Qed.

Lemma asciiUpper_lower a b :
  asciiUpper a = asciiUpper b <-> Phrase.lower a = Phrase.lower b.
Proof.
  unfold asciiUpper, Phrase.lower, Phrase.isUpperLetter.
  destruct (N.leb_spec 97 a), (N.leb_spec a 122), (N.leb_spec 97 b),
    (N.leb_spec b 122), (N.leb_spec 65 a), (N.leb_spec a 90),
    (N.leb_spec 65 b), (N.leb_spec b 90); simpl; lia.
Qed.

Lemma lower_nonascii ch : (128 <= ch)%N -> Phrase.lower ch = ch.
Proof.
  unfold Phrase.lower, Phrase.isUpperLetter. intros Hch.
  destruct (N.leb_spec 65 ch), (N.leb_spec ch 90); simpl; lia.
Qed.

Lemma lower_lt a : (a < 128)%N -> (Phrase.lower a < 128)%N.
Proof.
  unfold Phrase.lower, Phrase.isUpperLetter. intros Ha.
  destruct (N.leb_spec 65 a), (N.leb_spec a 90); simpl; lia.
Qed.

(** Against an ASCII pattern character, equality after Canonicalize is
    equality up to the case of ASCII letters. *)
Lemma Canonicalize_sameChar ch a :
  (a < 128)%N ->
  (Canonicalize true ch =? Canonicalize true a)%N = true <-> Phrase.sameChar ch a.
Proof.
  intros Ha. unfold Phrase.sameChar. rewrite N.eqb_eq.
  rewrite (Canonicalize_ascii a Ha).
  destruct (N.lt_ge_cases ch 128) as [Hch | Hch].
  - rewrite (Canonicalize_ascii ch Hch). apply asciiUpper_lower.
  - pose proof (Canonicalize_nonascii ch Hch).
    pose proof (asciiUpper_lt a Ha). pose proof (lower_lt a Ha).
    rewrite (lower_nonascii ch Hch). split; lia.
Qed.

Lemma wordCharacter_isWordChar c : wordCharacter c = Phrase.isWordChar c.
Proof.
  unfold wordCharacter, Phrase.isWordChar, Phrase.isUpperLetter,
    Phrase.isLowerLetter, Phrase.isDigit.
  destruct (_ && _), (_ && _), (_ && _), (c =? 95)%N; reflexivity.
Qed.

Lemma isWordChar_lower c : Phrase.isWordChar (Phrase.lower c) = Phrase.isWordChar c.
Proof.
  unfold Phrase.lower, Phrase.isWordChar, Phrase.isUpperLetter,
    Phrase.isLowerLetter, Phrase.isDigit.
  destruct (N.leb_spec 65 c), (N.leb_spec c 90); simpl;
    cases_on_comparisons.
Qed.

Lemma sameChar_isWordChar ch a :
  Phrase.sameChar ch a -> Phrase.isWordChar ch = Phrase.isWordChar a.
Proof.
  unfold Phrase.sameChar. intros E.
  rewrite <- (isWordChar_lower ch), <- (isWordChar_lower a), E. reflexivity.
Qed.

End Characters.

(** ** The matcher on a split input *)

Section Matcher.
Context `{Engine}.

Lemma codeUnitAt_app pre rest :
  JSString.codeUnitAt (pre ++ rest) (Z.of_nat (List.length pre)) = hd_error rest.
Proof.
  unfold JSString.codeUnitAt.
  replace (Z.of_nat (List.length pre) <? 0)%Z with false
    by (symmetry; apply Z.ltb_ge; lia).
  rewrite Nat2Z.id, nth_error_app2 by lia.
  rewrite Nat.sub_diag. destruct rest; reflexivity.
Qed.

Lemma IsWordChar_here pre rest :
  IsWordChar (pre ++ rest) (Z.of_nat (List.length pre))
  = match rest with [] => false | ch :: _ => wordCharacter ch end.
Proof.
  unfold IsWordChar. rewrite codeUnitAt_app.
  replace (Z.of_nat (List.length pre) =? -1)%Z with false
    by (symmetry; apply Z.eqb_neq; lia).
  unfold JSString.length. rewrite length_app. simpl.
  destruct rest as [|ch rest']; simpl.
  - replace (Z.of_nat (List.length pre) =? Z.of_nat (List.length pre + 0))%Z
      with true by (symmetry; apply Z.eqb_eq; lia).
    reflexivity.
  - replace (Z.of_nat (List.length pre)
             =? Z.of_nat (List.length pre + S (List.length rest')))%Z
      with false by (symmetry; apply Z.eqb_neq; lia).
    reflexivity.
Qed.

Lemma IsWordChar_before pre rest :
  IsWordChar (pre ++ rest) (Z.of_nat (List.length pre) - 1)
  = match rev pre with [] => false | ch :: _ => wordCharacter ch end.
Proof.
  destruct pre as [|a pre0 _] using rev_ind.
  - reflexivity.
  - rewrite rev_app_distr, <- app_assoc. cbn [rev app].
    replace (Z.of_nat (List.length (pre0 ++ [a])) - 1)%Z
      with (Z.of_nat (List.length pre0))
      by (rewrite length_app; simpl; lia).
    apply IsWordChar_here.
Qed.

Lemma endsClean_rev pre :
  Phrase.endsClean pre
  <-> match rev pre with [] => True | c :: _ => Phrase.isWordChar c = false end.
Proof.
  unfold Phrase.endsClean.
  destruct pre as [|a pre0 _] using rev_ind.
  - simpl. split; [trivial | intros _ pre' c E].
    destruct pre'; discriminate.
  - rewrite rev_app_distr. simpl. split.
    + intros Hc. apply (Hc pre0 a). reflexivity.
    + intros Ha pre' c E. apply app_inj_tail in E as [_ ->]. exact Ha.
Qed.

Lemma startsClean_hd post :
  Phrase.startsClean post
  <-> match post with [] => True | c :: _ => Phrase.isWordChar c = false end.
Proof.
  unfold Phrase.startsClean. destruct post as [|c post'].
  - split; [trivial | intros _ c post' E; discriminate].
  - split.
    + intros Hc. apply (Hc c post'). reflexivity.
    + intros Hc c' post'' E. injection E as -> _. exact Hc.
Qed.

(** Before a word character, [\b] holds exactly when no word character
    precedes. *)
Lemma boundary_start pre ch rest :
  wordCharacter ch = true ->
  boundary (pre ++ ch :: rest) (Z.of_nat (List.length pre)) = true
  <-> Phrase.endsClean pre.
Proof.
  intros Hch. unfold boundary.
  rewrite IsWordChar_here, IsWordChar_before, Hch, endsClean_rev.
  destruct (rev pre) as [|c ?].
  - simpl. tauto.
  - rewrite <- wordCharacter_isWordChar.
    destruct (wordCharacter c); simpl; split; congruence.
Qed.

(** After a word character, [\b] holds exactly when no word character
    follows. *)
Lemma boundary_end pre ch post :
  wordCharacter ch = true ->
  boundary ((pre ++ [ch]) ++ post) (Z.of_nat (List.length (pre ++ [ch]))) = true
  <-> Phrase.startsClean post.
Proof.
  intros Hch. unfold boundary.
  rewrite IsWordChar_here, IsWordChar_before, startsClean_hd.
  rewrite rev_app_distr. simpl. rewrite Hch.
  destruct post as [|c ?].
  - simpl. tauto.
  - rewrite <- wordCharacter_isWordChar.
    destruct (wordCharacter c); simpl; split; congruence.
Qed.

(** The matcher of a literal consumes a prefix of what is left. *)
Lemma m_Lit s : forall pre rest c,
  m (Lit s) (pre ++ rest) true (Z.of_nat (List.length pre)) c
  = match matchPrefix (JSString.lit s) rest with
    | Some _ => c (Z.of_nat (List.length pre) + Z.of_nat (String.length s))%Z
    | None => None
    end.
Proof.
  induction s as [|a s IH]; intros pre rest c.
  - simpl. f_equal. lia.
  - change (JSString.lit (String a s)) with (N_of_ascii a :: JSString.lit s).
    cbn [Lit m matchPrefix]. rewrite codeUnitAt_app.
    destruct rest as [|ch rest']; [reflexivity|]. cbn [hd_error].
    destruct (Canonicalize true ch =? Canonicalize true (N_of_ascii a))%N;
      [|reflexivity].
    replace (pre ++ ch :: rest') with ((pre ++ [ch]) ++ rest')
      by (rewrite <- app_assoc; reflexivity).
    replace (Z.of_nat (List.length pre) + 1)%Z
      with (Z.of_nat (List.length (pre ++ [ch])))
      by (rewrite length_app; simpl; lia).
    rewrite IH. destruct (matchPrefix (JSString.lit s) rest'); [|reflexivity].
    f_equal. rewrite length_app. cbn [String.length List.length]. lia.
Qed.

Lemma matchPrefix_spec s : forall rest post,
  forallb (fun a => (a <? 128)%N) s = true ->
  matchPrefix s rest = Some post
  <-> exists mid, rest = mid ++ post /\ Forall2 Phrase.sameChar mid s.
Proof.
  induction s as [|a s IH]; intros rest post Hs.
  - simpl. split.
    + intros [= ->]. exists []. split; [reflexivity | constructor].
    + intros (mid & -> & F). inversion F. reflexivity.
  - simpl in Hs. apply andb_true_iff in Hs as [Ha Hs]. apply N.ltb_lt in Ha.
    simpl. destruct rest as [|ch rest'].
    + split; [discriminate|]. intros (mid & E & F). inversion F; subst.
      discriminate.
    + pose proof (Canonicalize_sameChar ch a Ha) as Hc.
      destruct (Canonicalize true ch =? Canonicalize true a)%N.
      * rewrite (IH rest' post Hs). split.
        -- intros (mid & -> & F). exists (ch :: mid). split; [reflexivity|].
           constructor; [apply Hc; reflexivity | exact F].
        -- intros (mid & E & F). inversion F as [|x y l l' Hxy F' E1 E2]; subst.
           injection E as -> ->. exists l. split; [reflexivity | exact F'].
      * split; [discriminate|]. intros (mid & E & F).
        inversion F as [|x y l l' Hxy F' E1 E2]; subst. injection E as -> ->.
        apply Hc in Hxy. discriminate.
Qed.

End Matcher.

(** ** Phrases and the two regular expressions *)

Section Phrases.
Context `{Engine}.

Lemma length_lit s : List.length (JSString.lit s) = String.length s.
Proof.
  unfold JSString.lit. rewrite length_map.
  induction s; simpl; congruence.
Qed.

Lemma Forall2_last {A B} (R : A -> B -> Prop) l1 l2 b r :
  Forall2 R l1 l2 -> rev l2 = b :: r ->
  exists l1' a, l1 = l1' ++ [a] /\ R a b.
Proof.
  intros F E.
  assert (E2 : l2 = rev r ++ [b]).
  { rewrite <- (rev_involutive l2), E. reflexivity. }
  rewrite E2 in F. apply Forall2_app_inv_r in F as (l1' & l1'' & _ & F & ->).
  inversion F as [|a y la lb Hab F' E3 E4]; subst. inversion F'; subst.
  exists l1', a. split; [reflexivity | exact Hab].
Qed.

(** At the index that splits the input into [pre] and [rest], the matcher
    of a phrase between two [\b] succeeds exactly on a whole-word
    occurrence of the phrase at the start of [rest]. *)
Lemma phraseAt_split phrase pre rest :
  wordPhrase phrase = true ->
  phraseAt phrase (pre ++ rest) (Z.of_nat (List.length pre)) <> None
  <-> exists mid post,
        rest = mid ++ post
        /\ Forall2 Phrase.sameChar mid (JSString.lit phrase)
        /\ Phrase.endsClean pre /\ Phrase.startsClean post.
Proof.
  unfold wordPhrase. intros Hw.
  apply andb_true_iff in Hw as [Hw Hlast].
  apply andb_true_iff in Hw as [Hascii Hfirst].
  destruct (JSString.lit phrase) as [|a s'] eqn:Ephrase; [discriminate|].
  destruct (rev (a :: s')) as [|b r] eqn:Erev; [discriminate|].
  assert (Hchars : forall mid, Forall2 Phrase.sameChar mid (a :: s') ->
            List.length mid = String.length phrase
            /\ (exists ch mid', mid = ch :: mid' /\ wordCharacter ch = true)
            /\ (exists mid0 k, mid = mid0 ++ [k] /\ wordCharacter k = true)).
  { intros mid F. split; [|split].
    - rewrite (Forall2_length F), <- Ephrase. apply length_lit.
    - inversion F as [|ch y mid' l' Hc F' E1 E2]; subst.
      exists ch, mid'. split; [reflexivity|].
      rewrite wordCharacter_isWordChar, (sameChar_isWordChar _ _ Hc),
        <- wordCharacter_isWordChar. exact Hfirst.
    - destruct (Forall2_last _ _ _ _ _ F Erev) as (mid0 & k & -> & Hk).
      exists mid0, k. split; [reflexivity|].
      rewrite wordCharacter_isWordChar, (sameChar_isWordChar _ _ Hk),
        <- wordCharacter_isWordChar. exact Hlast. }
  unfold phraseAt. rewrite m_Lit, Ephrase.
  split.
  - destruct (boundary (pre ++ rest) (Z.of_nat (List.length pre))) eqn:Hb;
      [|congruence].
    destruct (matchPrefix (a :: s') rest) as [post|] eqn:Hm; [|congruence].
    apply (matchPrefix_spec (a :: s') rest post Hascii) in Hm as (mid & -> & F).
    destruct (Hchars mid F) as (Hlen & (ch & mid' & -> & Hch) & (mid0 & k & E & Hk)).
    intros He. exists (ch :: mid'), post. repeat split; try assumption.
    + apply (boundary_start pre ch (mid' ++ post) Hch). exact Hb.
    + apply (boundary_end (pre ++ mid0) k post Hk).
      rewrite <- Hlen, <- Nat2Z.inj_add, <- length_app in He.
      rewrite E in He. rewrite <- !app_assoc.
      rewrite <- !app_assoc in He.
      match type of He with
      | context [if ?B then _ else _] => destruct B; [reflexivity | congruence]
      end.
  - intros (mid & post & -> & F & Hpre & Hpost).
    destruct (Hchars mid F) as (Hlen & (ch & mid' & E1 & Hch) & (mid0 & k & E & Hk)).
    assert (Hb : boundary (pre ++ mid ++ post) (Z.of_nat (List.length pre)) = true).
    { rewrite E1. apply (boundary_start pre ch (mid' ++ post) Hch). exact Hpre. }
    rewrite Hb.
    assert (Hm : matchPrefix (a :: s') (mid ++ post) = Some post).
    { apply (matchPrefix_spec (a :: s') _ post Hascii). exists mid. tauto. }
    rewrite Hm.
    assert (He : boundary (pre ++ mid ++ post)
                   (Z.of_nat (List.length pre) + Z.of_nat (String.length phrase))
                 = true).
    { rewrite <- Hlen, <- Nat2Z.inj_add, <- length_app. rewrite E.
      pose proof (proj2 (boundary_end (pre ++ mid0) k post Hk) Hpost) as Hx.
      rewrite <- !app_assoc in Hx. rewrite <- !app_assoc. exact Hx. }
    rewrite He. discriminate.
Qed.

(** A whole-word occurrence somewhere in the text is a success of the
    matcher at some start index. *)
Lemma occursIn_phraseAt phrase text :
  wordPhrase phrase = true ->
  Phrase.occursIn phrase text
  <-> exists k, (k <= List.length text)%nat
               /\ phraseAt phrase text (Z.of_nat k) <> None.
Proof.
  intros Hw. unfold Phrase.occursIn. split.
  - intros (pre & mid & post & -> & F & Hpre & Hpost).
    exists (List.length pre). split; [rewrite length_app; lia|].
    apply (phraseAt_split phrase pre (mid ++ post) Hw).
    exists mid, post. tauto.
  - intros (k & Hk & Hm).
    pose proof (phraseAt_split phrase (firstn k text) (skipn k text) Hw) as L.
    rewrite firstn_skipn, (firstn_length_le text Hk) in L.
    apply L in Hm as (mid & post & E & F & Hpre & Hpost).
    exists (firstn k text), mid, post. rewrite <- E, firstn_skipn. tauto.
Qed.

(** The loop of [exec] succeeds exactly when the matcher succeeds at one
    of the start indices it tries. *)
Lemma execLoop_Some R S n : forall x,
  execLoop R S n x <> None
  <-> exists k, (k < n)%nat
        /\ m (source R) S (ignoreCaseFlag R) (x + Z.of_nat k) (fun y => Some y)
           <> None.
Proof.
  induction n as [|n IH]; intros x; simpl.
  - split; [congruence | intros (k & Hk & _); lia].
  - destruct (m (source R) S (ignoreCaseFlag R) x (fun y => Some y)) eqn:Hx.
    + split; [|discriminate]. intros _. exists 0%nat. split; [lia|].
      rewrite Z.add_0_r, Hx. discriminate.
    + rewrite IH. split.
      * intros (k & Hk & Hm). exists (Datatypes.S k). split; [lia|].
        replace (x + Z.of_nat (Datatypes.S k))%Z with (x + 1 + Z.of_nat k)%Z
          by lia. exact Hm.
      * intros (k & Hk & Hm). destruct k as [|k].
        -- rewrite Z.add_0_r, Hx in Hm. congruence.
        -- exists k. split; [lia|].
           replace (x + 1 + Z.of_nat k)%Z with (x + Z.of_nat (Datatypes.S k))%Z
             by lia. exact Hm.
Qed.

Lemma test_true R S :
  test R S = true
  <-> exists k, (k <= List.length S)%nat
        /\ m (source R) S (ignoreCaseFlag R) (Z.of_nat k) (fun y => Some y)
           <> None.
Proof.
  unfold test, exec.
  pose proof (execLoop_Some R S (Datatypes.S (List.length S)) 0) as L.
  simpl Z.add in L.
  destruct (execLoop R S (Datatypes.S (List.length S)) 0).
  - split; [intros _|reflexivity].
    destruct (proj1 L) as (k & Hk & Hm); [discriminate|].
    exists k. split; [lia | exact Hm].
  - split; [discriminate|]. intros (k & Hk & Hm).
    exfalso. apply (proj2 L); [|reflexivity]. exists k. split; [lia | exact Hm].
Qed.

Lemma rightRegExp_matcher S x :
  m (source rightRegExp) S true x (fun y => Some y) <> None
  <-> phraseAt "2 o'clock" S x <> None \/ phraseAt "3 o'clock" S x <> None
      \/ phraseAt "4 o'clock" S x <> None.
Proof.
  set (K := fun z => if boundary S z then Some z else None).
  change (m (source rightRegExp) S true x (fun y => Some y))
    with (if boundary S x
          then match m (Lit "2 o'clock") S true x K with
               | Some y => Some y
               | None => match m (Lit "3 o'clock") S true x K with
                         | Some y => Some y
                         | None => m (Lit "4 o'clock") S true x K
                         end
               end
          else None).
  unfold phraseAt. fold K.
  destruct (boundary S x); [|intuition congruence].
  destruct (m (Lit "2 o'clock") _ _ _ _); [intuition congruence|].
  destruct (m (Lit "3 o'clock") _ _ _ _); intuition congruence.
Qed.

Lemma leftRegExp_matcher S x :
  m (source leftRegExp) S true x (fun y => Some y) <> None
  <-> phraseAt "8 o'clock" S x <> None \/ phraseAt "9 o'clock" S x <> None
      \/ phraseAt "10 o'clock" S x <> None.
Proof.
  set (K := fun z => if boundary S z then Some z else None).
  change (m (source leftRegExp) S true x (fun y => Some y))
    with (if boundary S x
          then match m (Lit "8 o'clock") S true x K with
               | Some y => Some y
               | None => match m (Lit "9 o'clock") S true x K with
                         | Some y => Some y
                         | None => m (Lit "10 o'clock") S true x K
                         end
               end
          else None).
  unfold phraseAt. fold K.
  destruct (boundary S x); [|intuition congruence].
  destruct (m (Lit "8 o'clock") _ _ _ _); [intuition congruence|].
  destruct (m (Lit "9 o'clock") _ _ _ _); intuition congruence.
Qed.

End Phrases.

(** ** The direction extractor against the phrases of the specification *)

Section Extractor.
Context `{Engine}.

(** The first test of [extractPan] succeeds exactly on the texts with a
    right-range phrase. *)
Lemma test_rightRegExp text : test rightRegExp text = true <-> Phrase.right text.
Proof.
  unfold Phrase.right.
  rewrite test_true, !occursIn_phraseAt by reflexivity.
  split.
  - intros (k & Hk & Hm). apply rightRegExp_matcher in Hm.
    destruct Hm as [Hm | [Hm | Hm]]; [left | right; left | right; right];
      exists k; split; assumption.
  - intros [(k & Hk & Hm) | [(k & Hk & Hm) | (k & Hk & Hm)]];
      exists k; (split; [exact Hk|]); apply rightRegExp_matcher; tauto.
Qed.

(** The second test succeeds exactly on the texts with a left-range
    phrase. *)
Lemma test_leftRegExp text : test leftRegExp text = true <-> Phrase.left text.
Proof.
  unfold Phrase.left.
  rewrite test_true, !occursIn_phraseAt by reflexivity.
  split.
  - intros (k & Hk & Hm). apply leftRegExp_matcher in Hm.
    destruct Hm as [Hm | [Hm | Hm]]; [left | right; left | right; right];
      exists k; split; assumption.
  - intros [(k & Hk & Hm) | [(k & Hk & Hm) | (k & Hk & Hm)]];
      exists k; (split; [exact Hk|]); apply leftRegExp_matcher; tauto.
Qed.

Lemma extractPan_tests text :
  extractPan text
  = if test rightRegExp text then 0.6%float
    else if test leftRegExp text then (- 0.6)%float else 0%float.
Proof. reflexivity. Qed.

Lemma not_right_test text : ~ Phrase.right text -> test rightRegExp text = false.
Proof.
  intros Hn. destruct (test rightRegExp text) eqn:E; [|reflexivity].
  exfalso. apply Hn, test_rightRegExp, E.
Qed.

Lemma not_left_test text : ~ Phrase.left text -> test leftRegExp text = false.
Proof.
  intros Hn. destruct (test leftRegExp text) eqn:E; [|reflexivity].
  exfalso. apply Hn, test_leftRegExp, E.
Qed.

(** C1: a text with a case-insensitive whole-word "2 o'clock",
    "3 o'clock" or "4 o'clock" and without a left-range phrase is mapped
    to 0.6 by [extractPan]. *)
Theorem extractPan_right_phrase text :
  Phrase.right text -> ~ Phrase.left text -> extractPan text = 0.6%float.
Proof.
  intros Hr _. rewrite extractPan_tests.
  rewrite (proj2 (test_rightRegExp text) Hr). reflexivity.
Qed.

(** C2: a text with a case-insensitive whole-word "8 o'clock",
    "9 o'clock" or "10 o'clock" and without a right-range phrase is
    mapped to -0.6 by [extractPan]. *)
Theorem extractPan_left_phrase text :
  Phrase.left text -> ~ Phrase.right text -> extractPan text = (- 0.6)%float.
Proof.
  intros Hl Hr. rewrite extractPan_tests.
  rewrite (not_right_test text Hr), (proj2 (test_leftRegExp text) Hl).
  reflexivity.
Qed.

(** C3: a text with both a right-range and a left-range phrase is mapped
    to 0.6, wherever the two phrases stand in the text. *)
Theorem extractPan_right_precedence text :
  Phrase.right text -> Phrase.left text -> extractPan text = 0.6%float.
Proof.
  intros Hr _. rewrite extractPan_tests.
  rewrite (proj2 (test_rightRegExp text) Hr). reflexivity.
Qed.

(** C4: a text with neither a right-range nor a left-range whole-word
    clock phrase is mapped to 0. *)
Theorem extractPan_center text :
  ~ Phrase.right text -> ~ Phrase.left text -> extractPan text = 0%float.
Proof.
  intros Hr Hl. rewrite extractPan_tests.
  rewrite (not_right_test text Hr), (not_left_test text Hl). reflexivity.
Qed.

(** C5: the value [extractPan] returns lies in the closed interval
    [-1, 1], for every input. *)
Theorem extractPan_in_range text :
  PrimFloat.leb (-1)%float (extractPan text) = true
  /\ PrimFloat.leb (extractPan text) 1%float = true.
Proof.
  rewrite extractPan_tests.
  destruct (test rightRegExp text); [|destruct (test leftRegExp text)];
    split; reflexivity.
Qed.

(** *** The run of the extractor *)

(** On an object without [g] and [y] the loop of RegExpBuiltinExec ends
    within as many turns as there are start indices left, plus one, and
    leaves the heap as it was. *)
Lemma repeatMatcher_plain R o str h :
  Run.globalFlag o = false -> Run.stickyFlag o = false ->
  forall k index fuel,
    (index + Z.of_nat k = JSString.length str + 1)%Z -> (k < fuel)%nat ->
    Run.repeatMatcher fuel R o str index h
    = (Run.Returned (execLoop (Run.RegExpMatcher o) str k index), h).
Proof.
  intros Hg Hy. induction k as [|k IH]; intros index fuel Hindex Hfuel;
    (destruct fuel as [|fuel]; [lia|]); cbn [Run.repeatMatcher execLoop].
  - replace (JSString.length str <? index)%Z with true
      by (symmetry; apply Z.ltb_lt; lia).
    rewrite Hg, Hy. reflexivity.
  - replace (JSString.length str <? index)%Z with false
      by (symmetry; apply Z.ltb_ge; lia).
    destruct (m (source (Run.RegExpMatcher o)) str
                (ignoreCaseFlag (Run.RegExpMatcher o)) index (fun y => Some y))
      as [e|].
    + rewrite Hg, Hy. reflexivity.
    + rewrite Hy. apply IH; lia.
Qed.

(** [test] on such an object and a string returns what the matcher says,
    whatever [lastIndex] is, and changes nothing. *)
Lemma test_run fuel R o text h :
  nth_error h R = Some o ->
  Run.globalFlag o = false -> Run.stickyFlag o = false ->
  (List.length text + 1 < fuel)%nat ->
  Run.test fuel R (Some (JString text)) h
  = (Run.Returned (test (Run.RegExpMatcher o) text), h).
Proof.
  intros Hobject Hg Hy Hfuel.
  unfold Run.test, Run.toString, Run.RegExpBuiltinExec, Run.getObject, Run.bind,
    Run.ret.
  cbn [toStringThrows throwsJson ToString ToStringJson].
  rewrite Hobject, Hg, Hy. cbn [negb andb].
  rewrite (repeatMatcher_plain R o text h Hg Hy (Datatypes.S (List.length text)))
    by (unfold JSString.length; lia).
  reflexivity.
Qed.

Lemma extractPan_run text heap fuel :
  (List.length text + 1 < fuel)%nat ->
  Run.extractPan fuel (Some (JString text)) heap
  = (Run.Returned (extractPan text), heap ++ Run.literals).
Proof.
  intros Hfuel. rewrite extractPan_tests.
  unfold Run.extractPan, Run.RegExpCreate.
  unfold Run.bind at 1. unfold Run.bind at 1.
  rewrite <- app_assoc, length_app. cbn [app List.length].
  match goal with
  | |- context [Run.bind _ _ (heap ++ ?l)] => change l with Run.literals
  end.
  assert (Hright : nth_error (heap ++ Run.literals) (List.length heap)
                   = Some {| Run.RegExpMatcher := rightRegExp;
                             Run.globalFlag := false; Run.stickyFlag := false;
                             Run.lastIndex := 0 |}).
  { rewrite nth_error_app2 by lia. rewrite Nat.sub_diag. reflexivity. }
  assert (Hleft : nth_error (heap ++ Run.literals) (List.length heap + 1)
                  = Some {| Run.RegExpMatcher := leftRegExp;
                            Run.globalFlag := false; Run.stickyFlag := false;
                            Run.lastIndex := 0 |}).
  { rewrite nth_error_app2 by lia.
    replace (List.length heap + 1 - List.length heap)%nat with 1%nat by lia.
    reflexivity. }
  unfold Run.bind at 1.
  rewrite (test_run fuel _ _ text _ Hright eq_refl eq_refl Hfuel).
  cbn [Run.RegExpMatcher].
  destruct (test rightRegExp text); [reflexivity|].
  unfold Run.bind at 1.
  rewrite (test_run fuel _ _ text _ Hleft eq_refl eq_refl Hfuel).
  cbn [Run.RegExpMatcher].
  destruct (test leftRegExp text); reflexivity.
Qed.

(** C6: [extractPan] returns for every string, well-formed text or not:
    with fuel for one turn more than there are start indices in the text,
    each of its two tests comes to its end, nothing is thrown, and the
    result is one of the three values.  The run changes no object: the
    heap it leaves is the heap it found, followed by the two RegExp
    objects of its literals, which no one else refers to and whose
    [lastIndex] is still 0.  The value returned depends on the text alone:
    a second run on the same text returns the same value, from whatever
    heap and with whatever (sufficient) fuel it is made. *)
Theorem extractPan_total_pure text heap fuel :
  (List.length text + 1 < fuel)%nat ->
  Run.extractPan fuel (Some (JString text)) heap
  = (Run.Returned (extractPan text), heap ++ Run.literals)
  /\ (extractPan text = 0.6%float \/ extractPan text = (- 0.6)%float
      \/ extractPan text = 0%float)
  /\ (forall heap' fuel',
        (List.length text + 1 < fuel')%nat ->
        fst (Run.extractPan fuel' (Some (JString text)) heap')
        = fst (Run.extractPan fuel (Some (JString text)) heap)).
Proof.
  intros Hfuel. split; [exact (extractPan_run text heap fuel Hfuel) | split].
  - rewrite extractPan_tests.
    destruct (test rightRegExp text); [|destruct (test leftRegExp text)]; tauto.
  - intros heap' fuel' Hfuel'.
    rewrite (extractPan_run text heap fuel Hfuel),
      (extractPan_run text heap' fuel' Hfuel').
    reflexivity.
Qed.

End Extractor.

(** ** The scenarios of the specification *)

(** Deciding the phrases of a concrete text by running the tests. *)
Ltac decide_phrase :=
  match goal with
  | |- Phrase.right _ => apply (@test_rightRegExp asciiEngine); vm_compute; reflexivity
  | |- Phrase.left _ => apply (@test_leftRegExp asciiEngine); vm_compute; reflexivity
  | |- ~ Phrase.right _ =>
      let E := fresh in
      intros E; apply (@test_rightRegExp asciiEngine) in E; vm_compute in E;
      discriminate E
  | |- ~ Phrase.left _ =>
      let E := fresh in
      intros E; apply (@test_leftRegExp asciiEngine) in E; vm_compute in E;
      discriminate E
  end.

Lemma extractPan_right_phrase_scenario1 :
  Phrase.right scenario1 /\ ~ Phrase.left scenario1
  /\ @extractPan asciiEngine scenario1 = 0.6%float.
Proof.
  assert (Hr : Phrase.right scenario1) by decide_phrase.
  assert (Hl : ~ Phrase.left scenario1) by decide_phrase.
  split; [exact Hr | split; [exact Hl|]].
  exact (@extractPan_right_phrase asciiEngine scenario1 Hr Hl).
Defined.

Lemma extractPan_left_phrase_scenario2 :
  Phrase.left scenario2 /\ ~ Phrase.right scenario2
  /\ @extractPan asciiEngine scenario2 = (- 0.6)%float.
Proof.
  assert (Hl : Phrase.left scenario2) by decide_phrase.
  assert (Hr : ~ Phrase.right scenario2) by decide_phrase.
  split; [exact Hl | split; [exact Hr|]].
  exact (@extractPan_left_phrase asciiEngine scenario2 Hl Hr).
Defined.

Lemma extractPan_right_precedence_scenario4 :
  Phrase.right scenario4 /\ Phrase.left scenario4
  /\ @extractPan asciiEngine scenario4 = 0.6%float.
Proof.
  assert (Hr : Phrase.right scenario4) by decide_phrase.
  assert (Hl : Phrase.left scenario4) by decide_phrase.
  split; [exact Hr | split; [exact Hl|]].
  exact (@extractPan_right_precedence asciiEngine scenario4 Hr Hl).
Defined.

Lemma extractPan_center_other_clock_numbers :
  ~ Phrase.right otherClockNumbers /\ ~ Phrase.left otherClockNumbers
  /\ @extractPan asciiEngine otherClockNumbers = 0%float.
Proof.
  assert (Hr : ~ Phrase.right otherClockNumbers) by decide_phrase.
  assert (Hl : ~ Phrase.left otherClockNumbers) by decide_phrase.
  split; [exact Hr | split; [exact Hl|]].
  exact (@extractPan_center asciiEngine otherClockNumbers Hr Hl).
Defined.

Lemma extractPan_total_pure_scenario2 :
  (List.length scenario2 + 1 < 64)%nat
  /\ @Run.extractPan asciiEngine 64 (Some (JString scenario2)) []
     = (Run.Returned (- 0.6)%float, Run.literals)
  /\ (@extractPan asciiEngine scenario2 = 0.6%float
      \/ @extractPan asciiEngine scenario2 = (- 0.6)%float
      \/ @extractPan asciiEngine scenario2 = 0%float)
  /\ (forall heap' fuel',
        (List.length scenario2 + 1 < fuel')%nat ->
        fst (@Run.extractPan asciiEngine fuel' (Some (JString scenario2)) heap')
        = fst (@Run.extractPan asciiEngine 64 (Some (JString scenario2)) [])).
Proof.
  assert (Hfuel : (List.length scenario2 + 1 < 64)%nat)
    by (apply Nat.ltb_lt; reflexivity).
  split; [exact Hfuel|].
  exact (@extractPan_total_pure asciiEngine scenario2 [] 64 Hfuel).
Defined.

(** What a run can do and [extractPan] does not.  With less fuel than the
    text has start indices the first test is still running; an argument
    that is an object with a member [toString] makes [test] throw; and a
    RegExp object with the flag [g] is changed by [test], so that a second
    test of the same string answers otherwise. *)
Example extractPan_run_short_of_fuel :
  @Run.extractPan asciiEngine 30 (Some (JString scenario3)) []
  = (Run.OutOfFuel, Run.literals).
Proof. vm_compute. reflexivity. Qed.

Example extractPan_run_throws :
  @Run.extractPan asciiEngine 64
    (Some (JObject [(JSString.lit "toString", JBool true)])) []
  = (Run.Thrown TypeError, Run.literals).
Proof. vm_compute. reflexivity. Qed.

Example test_global_changes_lastIndex :
  let R := {| Run.RegExpMatcher := rightRegExp; Run.globalFlag := true;
              Run.stickyFlag := false; Run.lastIndex := 0 |} in
  let R' := {| Run.RegExpMatcher := rightRegExp; Run.globalFlag := true;
               Run.stickyFlag := false; Run.lastIndex := 23 |} in
  @Run.test asciiEngine 64 0 (Some (JString scenario1)) [R]
  = (Run.Returned true, [R'])
  /\ @Run.test asciiEngine 64 0 (Some (JString scenario1)) [R']
     = (Run.Returned false, [R]).
Proof. split; vm_compute; reflexivity. Qed.

(** An occurrence shown from the definition alone: the phrase in mixed
    case, between a space and a full stop. *)
Example occursIn_mixed_case :
  Phrase.occursIn "2 o'clock" (JSString.lit "at 2 O'Clock.").
Proof.
  exists (JSString.lit "at "), (JSString.lit "2 O'Clock"), (JSString.lit ".").
  split; [reflexivity|]. split; [|split].
  - repeat constructor.
  - intros pre' c E. apply (f_equal (@rev N)) in E.
    rewrite rev_app_distr in E. injection E as <- _. reflexivity.
  - intros c post' E. injection E as <- _. reflexivity.
Qed.

(** Scenario 3, the empty text and a text in upper case, on every engine. *)
Example extractPan_scenario3 `{Engine} : extractPan scenario3 = 0%float.
Proof. reflexivity. Qed.

Example extractPan_empty `{Engine} : extractPan [] = 0%float.
Proof. reflexivity. Qed.

Example extractPan_upper_case `{Engine} :
  extractPan (JSString.lit "CHAIR AT 10 O'CLOCK") = (- 0.6)%float.
Proof. reflexivity. Qed.

(** ** ToString that throws *)

Section ThrowingToString.
Context `{Engine}.

Lemma dropEquals_keeps data data' c :
  Base64.dropEquals data = Some data' -> In c data -> c <> 61%N -> In c data'.
Proof.
  unfold Base64.dropEquals. intros E Hc Hne.
  destruct (rev data) as [|x r] eqn:Er; [discriminate|].
  destruct (N.eqb_spec x 61); [|discriminate]. injection E as <-. subst x.
  apply in_rev in Hc. rewrite Er in Hc. destruct Hc as [Hc | Hc]; [congruence|].
  apply in_rev in Hc. exact Hc.
Qed.

Lemma removePadding_keeps data c :
  In c data -> c <> 61%N -> In c (Base64.removePadding data).
Proof.
  intros Hc Hne. unfold Base64.removePadding.
  destruct (_ =? 0)%nat; [|exact Hc].
  destruct (Base64.dropEquals data) as [data1|] eqn:E1; [|exact Hc].
  pose proof (dropEquals_keeps data data1 c E1 Hc Hne) as Hc1.
  destruct (Base64.dropEquals data1) as [data2|] eqn:E2; [|exact Hc1].
  exact (dropEquals_keeps data1 data2 c E2 Hc1 Hne).
Qed.

(** A text with an opening bracket is not base64. *)
Lemma atob_bracket s : In 91%N s -> Base64.atob s = None.
Proof.
  intros Hin. unfold Base64.atob, Base64.forgivingDecode.
  assert (Hkept : In 91%N
                    (Base64.removePadding
                       (filter (fun c => negb (Base64.isAsciiWhitespace c)) s))).
  { apply removePadding_keeps; [|discriminate].
    apply filter_In. split; [exact Hin | reflexivity]. }
  destruct (_ =? 1)%nat; [reflexivity|].
  replace (forallb _ (Base64.removePadding _)) with false; [reflexivity|].
  symmetry. apply not_true_is_false. intros Hall.
  rewrite forallb_forall in Hall. specialize (Hall 91%N Hkept). discriminate Hall.
Qed.

(** The string the model gives to a value whose conversion throws holds
    an opening bracket. *)
Lemma throwsJson_bracket : forall j, throwsJson j = true -> In 91%N (ToStringJson j).
Proof.
  fix IH 1. intros [| b | x | t | items | fields]; try discriminate.
  - cbn [throwsJson ToStringJson]. revert items.
    fix IHitems 1. intros [|x items]; [discriminate|].
    intros Hthrows. apply orb_true_iff in Hthrows as [Hx | Hrest].
    + apply in_or_app. left.
      pose proof (IH x Hx) as Hin.
      destruct x; try exact Hin. discriminate Hx.
    + apply in_or_app. right.
      pose proof (IHitems items Hrest) as Hin.
      destruct items as [|y items']; [contradiction Hin|].
      right. exact Hin.
  - intros _. cbn. tauto.
Qed.

Lemma toStringThrows_atob v :
  toStringThrows v = true -> Base64.atob (ToString v) = None.
Proof.
  destruct v as [j|]; [|discriminate]. intros Hthrows.
  apply atob_bracket, throwsJson_bracket, Hthrows.
Qed.

(** A value that [base64ToBlob] turns into a blob is one that ToString
    converts. *)
Lemma base64ToBlob_converted v type blob :
  base64ToBlob (ToString v) type = Some blob -> toStringThrows v = false.
Proof.
  intros Hblob. destruct (toStringThrows v) eqn:E; [|reflexivity].
  unfold base64ToBlob in Hblob. rewrite (toStringThrows_atob v E) in Hblob.
  discriminate Hblob.
Qed.

End ThrowingToString.

(** ** The playback driver *)

Section Playback.
Context `{Engine}.

Lemma after_after st evs evs' : after (after st evs) evs' = after st (evs ++ evs').
Proof. unfold after. simpl. rewrite app_assoc. reflexivity. Qed.

Lemma emit_after ev w st : emit ev w st = (Normal tt, after st [ev]).
Proof. reflexivity. Qed.

(** Every run of [playSpatial], by what the host does. *)
Lemma playSpatial_run id text w st :
  playSpatial (ObjectURL id) text w st
  = match audioContextFailure w with
    | Some e => (Throw e, after st [NewAudioContext])
    | None =>
        match nth_error (objectURLs st) id with
        | None => (Throw TypeError, after st [NewAudioContext; FetchUrl (ObjectURL id)])
        | Some b =>
            match decodeAudioData w (blobBytes b) with
            | None =>
                (Throw EncodingError,
                 after st [NewAudioContext; FetchUrl (ObjectURL id);
                           DecodeAudioData (blobBytes b)])
            | Some decoded =>
                (Normal tt,
                 after st [NewAudioContext; FetchUrl (ObjectURL id);
                           DecodeAudioData (blobBytes b); CreateBufferSource;
                           SetSourceBuffer decoded; CreateStereoPanner;
                           SetPan (extractPan text);
                           Connect SourceNode PannerNode;
                           Connect PannerNode DestinationNode; Start 0%float])
            end
        end
    end.
Proof.
  unfold playSpatial. generalize (extractPan text). intros pan.
  unfold bind, newAudioContext, fetchArrayBuffer, decode, bind, ask, throw,
    ret, emit.
  cbn beta iota.
  destruct (audioContextFailure w) as [e|]; [reflexivity|].
  cbn [objectURLs trace].
  destruct (nth_error (objectURLs st) id) as [b|];
    [destruct (decodeAudioData w (blobBytes b)) as [decoded|]|];
    unfold after; cbn [trace objectURLs]; rewrite <- !app_assoc; reflexivity.
Qed.

(** C9: in every run of [playSpatial] in which playback starts, the pan
    was set to the value derived from the text before the start, and it
    is set nowhere else: neither earlier, nor between that and the start,
    nor after the start. *)
Theorem playSpatial_pan_before_start audioUrl text w st c st' before when later :
  playSpatial audioUrl text w st = (c, st') ->
  trace st' = trace st ++ before ++ Start when :: later ->
  exists b1 b2,
    before = b1 ++ SetPan (extractPan text) :: b2
    /\ existsb isSetPan (b1 ++ b2 ++ later) = false.
Proof.
  destruct audioUrl as [id]. rewrite playSpatial_run.
  generalize (extractPan text). intros pan.
  intros Hrun Htrace.
  assert (Hevs : exists evs, trace st' = trace st ++ evs /\
            (evs = [NewAudioContext; FetchUrl (ObjectURL id)]
             \/ evs = [NewAudioContext]
             \/ (exists bytes, evs = [NewAudioContext; FetchUrl (ObjectURL id);
                                      DecodeAudioData bytes])
             \/ (exists bytes decoded,
                   evs = [NewAudioContext; FetchUrl (ObjectURL id);
                          DecodeAudioData bytes; CreateBufferSource;
                          SetSourceBuffer decoded; CreateStereoPanner;
                          SetPan pan; Connect SourceNode PannerNode;
                          Connect PannerNode DestinationNode; Start 0%float]))).
  { destruct (audioContextFailure w) as [e|].
    - injection Hrun as _ <-. eexists. split; [reflexivity|]. tauto.
    - destruct (nth_error (objectURLs st) id) as [b|].
      + destruct (decodeAudioData w (blobBytes b)) as [decoded|];
          injection Hrun as _ <-; eexists; (split; [reflexivity|]).
        * right; right; right. eauto.
        * right; right; left. eauto.
      + injection Hrun as _ <-. eexists. split; [reflexivity|]. tauto. }
  destruct Hevs as (evs & E & Hevs). rewrite E in Htrace.
  apply app_inv_head in Htrace. subst evs.
  destruct Hevs as [E1 | [E1 | [(bytes & E1) | (bytes & decoded & E1)]]].
  1-3: repeat (destruct before as [|? before]; [discriminate E1|];
               injection E1 as _ E1); destruct before; discriminate E1.
  do 9 (destruct before as [|? before]; [discriminate E1|];
        injection E1 as -> E1).
  destruct before as [|? before].
  - injection E1 as _ ->.
    exists [NewAudioContext; FetchUrl (ObjectURL id); DecodeAudioData bytes;
            CreateBufferSource; SetSourceBuffer decoded; CreateStereoPanner],
      [Connect SourceNode PannerNode; Connect PannerNode DestinationNode].
    split; reflexivity.
  - injection E1 as _ E1. destruct before; discriminate E1.
Qed.

(** C8: when the host cannot decode the payload, [playSpatial] completes
    abruptly with the decoding error, handed to whoever awaits it, after a
    trace without [Start]; [speakDescription], its caller, catches the
    error, reports it on the console and returns normally. *)
Theorem decode_failure_reported text w st blob :
  audioContextFailure w = None ->
  decodeAudioData w (blobBytes blob) = None ->
  (forall id,
      nth_error (objectURLs st) id = Some blob ->
      playSpatial (ObjectURL id) text w st
      = (Throw EncodingError,
         after st [NewAudioContext; FetchUrl (ObjectURL id);
                   DecodeAudioData (blobBytes blob)]))
  /\ (forall data,
         text <> [] ->
         tts w text = JsonData data ->
         data <> JNull ->
         ToBoolean (property "audioBase64" data) = true ->
         base64ToBlob (ToString (property "audioBase64" data))
           (JSString.lit "audio/mpeg") = Some blob ->
         let audioUrl := ObjectURL (List.length (objectURLs st)) in
         speakDescription text w st
         = (Normal tt,
            {| trace := trace st ++
                        [PostTts text; CreateObjectURL blob; SetAudioSrc audioUrl;
                         NewAudioContext; FetchUrl audioUrl;
                         DecodeAudioData (blobBytes blob);
                         ConsoleError EncodingError];
               objectURLs := objectURLs st ++ [blob] |})).
Proof.
  intros Hctx Hdec. split.
  - intros id Hid. rewrite playSpatial_run, Hctx, Hid, Hdec. reflexivity.
  - intros data Htext Htts Hdata Htruthy Hblob audioUrl.
    unfold speakDescription.
    destruct text as [|ch text']; [congruence|].
    cbn [ToBoolean List.length Nat.eqb negb].
    unfold tryCatch, bind, fetchTts, bind, ask, ret, emit.
    cbn beta iota. rewrite Htts. cbn [responseJson]. unfold getProperty.
    unfold ret, throw. cbn beta iota.
    destruct data; try congruence; cbn beta iota;
      rewrite Htruthy; cbn [negb];
      rewrite (base64ToBlob_converted _ _ _ Hblob), Hblob; unfold createObjectURL;
      cbn beta iota; rewrite playSpatial_run; cbn [objectURLs trace];
      rewrite Hctx, nth_error_app2, Nat.sub_diag by lia;
      cbn [nth_error]; rewrite Hdec; unfold after; cbn [trace objectURLs];
      rewrite <- !app_assoc; reflexivity.
Qed.

(** C7: when the TTS response carries no audio ([audioBase64] absent,
    empty or otherwise falsy), [speakDescription] returns normally; beyond
    the request to the TTS endpoint itself it has no effect: nothing is
    played and nothing is reported as an error. *)
Theorem empty_payload_no_op text w st data :
  tts w text = JsonData data ->
  data <> JNull ->
  ToBoolean (property "audioBase64" data) = false ->
  speakDescription text w st
  = (Normal tt, after st (match text with [] => [] | _ => [PostTts text] end)).
Proof.
  intros Htts Hdata Hfalsy. unfold speakDescription.
  destruct text as [|ch text'].
  - unfold after. rewrite app_nil_r. destruct st; reflexivity.
  - cbn [ToBoolean List.length Nat.eqb negb].
    unfold tryCatch, bind, fetchTts, bind, ask, ret, emit.
    cbn beta iota. rewrite Htts. cbn [responseJson]. unfold getProperty.
    unfold ret, throw. cbn beta iota.
    destruct data; try congruence; cbn beta iota; rewrite Hfalsy; reflexivity.
Qed.

(** On the answer [null] the property read throws; the error is caught
    and reported. *)
Lemma speakDescription_null_data text w st :
  text <> [] ->
  tts w text = JsonData JNull ->
  speakDescription text w st
  = (Normal tt, after st [PostTts text; ConsoleError TypeError]).
Proof.
  intros Htext Htts. unfold speakDescription.
  destruct text as [|ch text']; [congruence|].
  cbn [ToBoolean List.length Nat.eqb negb].
  unfold tryCatch, bind, fetchTts, bind, ask, ret, emit.
  cbn beta iota. rewrite Htts. cbn [responseJson]. unfold getProperty, ret, throw.
  cbn beta iota. unfold after. cbn [trace objectURLs].
  rewrite <- app_assoc. reflexivity.
Qed.

(** Whatever the host does, [speakDescription] returns normally: no error
    leaves it. *)
Lemma speakDescription_returns text w st :
  exists st', speakDescription text w st = (Normal tt, st').
Proof.
  unfold speakDescription.
  destruct (negb (ToBoolean (Some (JString text)))); [eexists; reflexivity|].
  unfold tryCatch.
  match goal with |- context [bind ?c ?k w st] => destruct (bind c k w st) as [[[]|e] st1] end;
    eexists; reflexivity.
Qed.

End Playback.

Lemma playSpatial_pan_before_start_scenario2 :
  let before :=
    [NewAudioContext; FetchUrl (ObjectURL 0);
     DecodeAudioData (blobBytes mpegBlob); CreateBufferSource;
     SetSourceBuffer (PCM []); CreateStereoPanner; SetPan (- 0.6)%float;
     Connect SourceNode PannerNode; Connect PannerNode DestinationNode] in
  let st' := after oneBlobState (before ++ [Start 0%float]) in
  @playSpatial asciiEngine (ObjectURL 0) scenario2 playingWorld oneBlobState
  = (Normal tt, st')
  /\ trace st' = trace oneBlobState ++ before ++ Start 0%float :: []
  /\ exists b1 b2,
       before = b1 ++ SetPan (@extractPan asciiEngine scenario2) :: b2
       /\ existsb isSetPan (b1 ++ b2 ++ []) = false.
Proof.
  intros before st'.
  assert (Hrun : @playSpatial asciiEngine (ObjectURL 0) scenario2 playingWorld
                   oneBlobState = (Normal tt, st')) by reflexivity.
  assert (Htrace : trace st' = trace oneBlobState ++ before ++ Start 0%float :: [])
    by reflexivity.
  split; [exact Hrun | split; [exact Htrace|]].
  exact (@playSpatial_pan_before_start asciiEngine (ObjectURL 0) scenario2
           playingWorld oneBlobState (Normal tt) st' before 0%float [] Hrun Htrace).
Defined.

Lemma decode_failure_reported_noise :
  let text := scenario1 in
  audioContextFailure noiseWorld = None
  /\ decodeAudioData noiseWorld (blobBytes mpegBlob) = None
  /\ nth_error (objectURLs oneBlobState) 0 = Some mpegBlob
  /\ @playSpatial asciiEngine (ObjectURL 0) text noiseWorld oneBlobState
     = (Throw EncodingError,
        after oneBlobState [NewAudioContext; FetchUrl (ObjectURL 0);
                            DecodeAudioData (blobBytes mpegBlob)])
  /\ @speakDescription asciiEngine text noiseWorld emptyState
     = (Normal tt,
        {| trace := [PostTts text; CreateObjectURL mpegBlob;
                     SetAudioSrc (ObjectURL 0); NewAudioContext;
                     FetchUrl (ObjectURL 0);
                     DecodeAudioData (blobBytes mpegBlob);
                     ConsoleError EncodingError];
           objectURLs := [mpegBlob] |}).
Proof.
  intros text.
  assert (Hctx : audioContextFailure noiseWorld = None) by reflexivity.
  assert (Hdec : decodeAudioData noiseWorld (blobBytes mpegBlob) = None)
    by reflexivity.
  assert (Hid : nth_error (objectURLs oneBlobState) 0 = Some mpegBlob)
    by reflexivity.
  repeat (split; [assumption|]). split.
  - exact (proj1 (@decode_failure_reported asciiEngine text noiseWorld
                    oneBlobState mpegBlob Hctx Hdec) 0%nat Hid).
  - refine (proj2 (@decode_failure_reported asciiEngine text noiseWorld
                     emptyState mpegBlob Hctx Hdec)
              (JObject [(JSString.lit "audioBase64", JString (JSString.lit "AAAA"))])
              _ _ _ _ _).
    + discriminate.
    + reflexivity.
    + discriminate.
    + reflexivity.
    + reflexivity.
Defined.

Lemma empty_payload_no_op_silent :
  let data := mockAnswer in
  tts silentWorld scenario1 = JsonData data
  /\ data <> JNull
  /\ ToBoolean (property "audioBase64" data) = false
  /\ @speakDescription asciiEngine scenario1 silentWorld emptyState
     = (Normal tt, after emptyState [PostTts scenario1]).
Proof.
  intros data.
  assert (Htts : tts silentWorld scenario1 = JsonData data) by reflexivity.
  assert (Hdata : data <> JNull) by discriminate.
  assert (Hfalsy : ToBoolean (property "audioBase64" data) = false) by reflexivity.
  repeat (split; [assumption|]).
  exact (@empty_payload_no_op asciiEngine scenario1 silentWorld emptyState data
           Htts Hdata Hfalsy).
Defined.

(** ** Base64 *)

(** Arithmetic with divisions by constants. *)
Ltac divmod := zify; Z.to_euclidean_division_equations; lia.

(** Induction over a byte sequence, three bytes at a time. *)
Lemma triples_ind (P : list Byte.byte -> Prop) :
  P [] -> (forall a, P [a]) -> (forall a b, P [a; b]) ->
  (forall a b c rest, P rest -> P (a :: b :: c :: rest)) ->
  forall bytes, P bytes.
Proof.
  intros H0 H1 H2 H3 bytes.
  assert (Hall : P bytes /\ (forall a, P (a :: bytes))
                 /\ (forall a b, P (a :: b :: bytes))).
  { induction bytes as [|x bytes (IH0 & IH1 & IH2)].
    - repeat split; auto.
    - repeat split; auto. }
  apply Hall.
Qed.

Lemma index_alphabet n : (n < 64)%N -> Base64.index (Base64.alphabet n) = Some n.
Proof.
  intros Hn. unfold Base64.alphabet.
  destruct (N.ltb_spec n 26); [|destruct (N.ltb_spec n 52);
    [|destruct (N.ltb_spec n 62); [|destruct (N.eqb_spec n 62)]]];
    unfold Base64.index; cases_on_comparisons; f_equal; lia.
Qed.

(** A character of the alphabet is neither white space nor [=]. *)
Lemma index_plain c :
  Base64.index c <> None ->
  Base64.isAsciiWhitespace c = false /\ (c =? 61)%N = false.
Proof.
  unfold Base64.index, Base64.isAsciiWhitespace. intros Hc. split.
  - destruct (N.eqb_spec c 9), (N.eqb_spec c 10), (N.eqb_spec c 12),
      (N.eqb_spec c 13), (N.eqb_spec c 32); subst; simpl in *; congruence.
  - destruct (N.eqb_spec c 61); subst; simpl in *; congruence.
Qed.

Lemma plain_alphabet n : (n < 64)%N -> plain (Base64.alphabet n).
Proof. intros Hn. unfold plain. rewrite (index_alphabet n Hn). discriminate. Qed.

Lemma encode_unpadded bytes : Base64.encode bytes = unpadded bytes ++ padding bytes.
Proof.
  induction bytes as [| a | a b | a b c rest IH] using triples_ind;
    try reflexivity.
  cbn [Base64.encode unpadded padding]. rewrite IH. reflexivity.
Qed.

Lemma sextets3 a b c :
  let g := (Byte.to_N a * 65536 + Byte.to_N b * 256 + Byte.to_N c)%N in
  (g / 262144 < 64 /\ (g / 4096) mod 64 < 64 /\ (g / 64) mod 64 < 64
   /\ g mod 64 < 64)%N.
Proof.
  pose proof (Byte.to_N_bounded a). pose proof (Byte.to_N_bounded b).
  pose proof (Byte.to_N_bounded c). cbv zeta. repeat split; divmod.
Qed.

Lemma sextets2 a b :
  let g := ((Byte.to_N a * 256 + Byte.to_N b) * 4)%N in
  (g / 4096 < 64 /\ (g / 64) mod 64 < 64 /\ g mod 64 < 64)%N.
Proof.
  pose proof (Byte.to_N_bounded a). pose proof (Byte.to_N_bounded b).
  cbv zeta. repeat split; divmod.
Qed.

Lemma sextets1 a :
  let g := (Byte.to_N a * 16)%N in (g / 64 < 64 /\ g mod 64 < 64)%N.
Proof.
  pose proof (Byte.to_N_bounded a). cbv zeta. repeat split; divmod.
Qed.

Lemma unpadded_plain bytes : Forall plain (unpadded bytes).
Proof.
  induction bytes as [| a | a b | a b c rest IH] using triples_ind.
  - constructor.
  - destruct (sextets1 a) as (? & ?).
    cbn [unpadded]. repeat constructor; apply plain_alphabet; assumption.
  - destruct (sextets2 a b) as (? & ? & ?).
    cbn [unpadded]. repeat constructor; apply plain_alphabet; assumption.
  - destruct (sextets3 a b c) as (? & ? & ? & ?).
    cbn [unpadded]. repeat (constructor; [apply plain_alphabet; assumption|]).
    exact IH.
Qed.

Lemma padding_cases bytes :
  padding bytes = [] \/ padding bytes = [61%N] \/ padding bytes = [61%N; 61%N].
Proof.
  induction bytes as [| a | a b | a b c rest IH] using triples_ind; cbn; tauto.
Qed.

(** The length of the padded encoding is a multiple of four; the length
    of the unpadded one is not one more than a multiple of four. *)
Lemma length_encode bytes :
  exists k, List.length (Base64.encode bytes) = (4 * k)%nat.
Proof.
  induction bytes as [| a | a b | a b c rest [k IH]] using triples_ind.
  - exists 0%nat. reflexivity.
  - exists 1%nat. reflexivity.
  - exists 1%nat. reflexivity.
  - exists (S k). cbn [Base64.encode List.length]. rewrite IH. lia.
Qed.

Lemma length_unpadded bytes :
  exists k r, List.length (unpadded bytes) = (4 * k + r)%nat
              /\ (r = 0 \/ r = 2 \/ r = 3)%nat.
Proof.
  induction bytes as [| a | a b | a b c rest (k & r & IH & Hr)] using triples_ind.
  - exists 0%nat, 0%nat. split; [reflexivity | tauto].
  - exists 0%nat, 2%nat. split; [reflexivity | tauto].
  - exists 0%nat, 3%nat. split; [reflexivity | tauto].
  - exists (S k), r. cbn [unpadded List.length]. rewrite IH. split; [lia | exact Hr].
Qed.

Lemma dropEquals_snoc l : Base64.dropEquals (l ++ [61%N]) = Some l.
Proof.
  unfold Base64.dropEquals. rewrite rev_app_distr. simpl.
  rewrite rev_involutive. reflexivity.
Qed.

Lemma dropEquals_plain l : Forall plain l -> Base64.dropEquals l = None.
Proof.
  intros Hl. unfold Base64.dropEquals.
  destruct (rev l) as [|c r] eqn:E; [reflexivity|].
  assert (Hc : plain c).
  { rewrite Forall_forall in Hl. apply Hl, in_rev. rewrite E. left. reflexivity. }
  destruct (index_plain c Hc) as [_ ->]. reflexivity.
Qed.

Lemma removePadding_encode bytes :
  Base64.removePadding (Base64.encode bytes) = unpadded bytes.
Proof.
  unfold Base64.removePadding.
  destruct (length_encode bytes) as [k Hk]. rewrite Hk.
  replace ((4 * k) mod 4 =? 0)%nat with true
    by (symmetry; apply Nat.eqb_eq; rewrite Nat.mul_comm; apply Nat.Div0.mod_mul).
  rewrite encode_unpadded.
  pose proof (unpadded_plain bytes) as Hp.
  destruct (padding_cases bytes) as [-> | [-> | ->]].
  - rewrite app_nil_r, (dropEquals_plain _ Hp). reflexivity.
  - rewrite dropEquals_snoc, (dropEquals_plain _ Hp). reflexivity.
  - change [61%N; 61%N] with ([61%N] ++ [61%N]).
    rewrite app_assoc, !dropEquals_snoc. reflexivity.
Qed.

Lemma filter_encode bytes :
  filter (fun c => negb (Base64.isAsciiWhitespace c)) (Base64.encode bytes)
  = Base64.encode bytes.
Proof.
  apply forallb_filter_id. apply forallb_forall. intros c Hc.
  rewrite encode_unpadded in Hc. apply in_app_or in Hc as [Hc | Hc].
  - pose proof (unpadded_plain bytes) as Hp. rewrite Forall_forall in Hp.
    destruct (index_plain c (Hp c Hc)) as [-> _]. reflexivity.
  - destruct (padding_cases bytes) as [E | [E | E]]; rewrite E in Hc;
      simpl in Hc; intuition (subst; reflexivity).
Qed.

Lemma decodeLoop_step c n data buffer width output :
  Base64.index c = Some n ->
  Base64.decodeLoop (c :: data) buffer width output
  = if (width + 6 =? 24)%nat
    then Base64.decodeLoop data 0 0
           (output ++ [((buffer * 64 + n) / 65536)%N;
                       (((buffer * 64 + n) / 256) mod 256)%N;
                       ((buffer * 64 + n) mod 256)%N])
    else Base64.decodeLoop data (buffer * 64 + n) (width + 6) output.
Proof. intros E. cbn [Base64.decodeLoop]. rewrite E. reflexivity. Qed.

(** The loop of the decoder gives back the bytes of an unpadded encoding. *)
Lemma decodeLoop_unpadded bytes : forall output,
  Base64.decodeLoop (unpadded bytes) 0 0 output
  = Some (output ++ map Byte.to_N bytes).
Proof.
  induction bytes as [| a | a b | a b c rest IH] using triples_ind;
    intros output.
  - cbn. rewrite app_nil_r. reflexivity.
  - destruct (sextets1 a) as (H1 & H2). cbv zeta in H1, H2.
    pose proof (Byte.to_N_bounded a).
    cbn [unpadded].
    rewrite (decodeLoop_step _ _ _ _ _ _ (index_alphabet _ H1)). cbn [Nat.add Nat.eqb].
    rewrite (decodeLoop_step _ _ _ _ _ _ (index_alphabet _ H2)). cbn [Nat.add Nat.eqb].
    cbn [Base64.decodeLoop Nat.eqb map]. do 3 f_equal. divmod.
  - destruct (sextets2 a b) as (H1 & H2 & H3). cbv zeta in H1, H2, H3.
    pose proof (Byte.to_N_bounded a). pose proof (Byte.to_N_bounded b).
    cbn [unpadded].
    rewrite (decodeLoop_step _ _ _ _ _ _ (index_alphabet _ H1)). cbn [Nat.add Nat.eqb].
    rewrite (decodeLoop_step _ _ _ _ _ _ (index_alphabet _ H2)). cbn [Nat.add Nat.eqb].
    rewrite (decodeLoop_step _ _ _ _ _ _ (index_alphabet _ H3)). cbn [Nat.add Nat.eqb].
    cbn [Base64.decodeLoop Nat.eqb map]. do 2 f_equal.
    f_equal; [divmod | f_equal; divmod].
  - destruct (sextets3 a b c) as (H1 & H2 & H3 & H4). cbv zeta in H1, H2, H3, H4.
    pose proof (Byte.to_N_bounded a). pose proof (Byte.to_N_bounded b).
    pose proof (Byte.to_N_bounded c).
    cbn [unpadded].
    rewrite (decodeLoop_step _ _ _ _ _ _ (index_alphabet _ H1)). cbn [Nat.add Nat.eqb].
    rewrite (decodeLoop_step _ _ _ _ _ _ (index_alphabet _ H2)). cbn [Nat.add Nat.eqb].
    rewrite (decodeLoop_step _ _ _ _ _ _ (index_alphabet _ H3)). cbn [Nat.add Nat.eqb].
    rewrite (decodeLoop_step _ _ _ _ _ _ (index_alphabet _ H4)). cbn [Nat.add Nat.eqb].
    rewrite IH. cbn [map]. rewrite <- app_assoc. cbn [app]. do 2 f_equal.
    f_equal; [divmod | f_equal; [divmod | f_equal; divmod]].
Qed.

(** [atob] inverts the encoding: the code units of the result are the
    bytes. *)
Lemma atob_encode bytes :
  Base64.atob (Base64.encode bytes) = Some (map Byte.to_N bytes).
Proof.
  unfold Base64.atob, Base64.forgivingDecode.
  rewrite filter_encode, removePadding_encode.
  destruct (length_unpadded bytes) as (k & r & -> & Hr).
  replace ((4 * k + r) mod 4 =? 1)%nat with false.
  2: { symmetry. apply Nat.eqb_neq.
       rewrite Nat.add_comm, Nat.mul_comm, Nat.Div0.mod_add.
       destruct Hr as [-> | [-> | ->]]; cbn; lia. }
  replace (forallb _ (unpadded bytes)) with true.
  2: { symmetry. apply forallb_forall. intros c Hc.
       pose proof (unpadded_plain bytes) as Hp. rewrite Forall_forall in Hp.
       specialize (Hp c Hc). unfold plain in Hp.
       destruct (Base64.index c); [reflexivity | congruence]. }
  cbn [negb]. apply decodeLoop_unpadded.
Qed.

Lemma setIndex_middle (l1 l2 : list element) x v :
  setIndex (l1 ++ x :: l2) (List.length l1) v = l1 ++ v :: l2.
Proof. induction l1 as [|y l1 IH]; cbn; [|rewrite IH]; reflexivity. Qed.

(** The loop of [base64ToBlob] fills the array with the character codes,
    from left to right. *)
Lemma fillLoop_fills n : forall done todo,
  List.length todo = n ->
  fillLoop (done ++ todo) (map Some done ++ repeat None n) (List.length done) n
  = map Some (done ++ todo).
Proof.
  induction n as [|n IH]; intros done todo Hn.
  - destruct todo; [|discriminate]. cbn. rewrite !app_nil_r. reflexivity.
  - destruct todo as [|c todo]; [discriminate|]. injection Hn as Hn.
    cbn [fillLoop repeat].
    rewrite <- (length_map Some done) at 1. rewrite setIndex_middle.
    unfold charCodeAt. rewrite nth_error_app2, Nat.sub_diag by lia.
    cbn [nth_error].
    replace (done ++ c :: todo) with ((done ++ [c]) ++ todo)
      by (rewrite <- app_assoc; reflexivity).
    match goal with
    | |- fillLoop _ ?arr _ _ = _ =>
        replace arr with (map Some (done ++ [c]) ++ repeat (None : element) n)
          by (rewrite map_app, <- app_assoc; reflexivity)
    end.
    replace (List.length done + 1)%nat with (List.length (done ++ [c]))
      by (rewrite length_app; reflexivity).
    apply IH. exact Hn.
Qed.

Lemma toUint8_byte b : toUint8 (Some (Byte.to_N b)) = b.
Proof.
  unfold toUint8. pose proof (Byte.to_N_bounded b).
  rewrite N.mod_small by lia. rewrite Byte.of_to_N. reflexivity.
Qed.

(** C10, as amended: [base64ToBlob] inverts standard base64 encoding on
    the bytes, for every byte sequence; the type of the blob is the
    supplied type as the Blob constructor normalizes it (ASCII lowercase,
    or empty when a character lies outside U+0020..U+007E), which for
    "audio/mpeg", the type the program passes, is the supplied type. *)
Theorem base64ToBlob_encode bytes type :
  base64ToBlob (Base64.encode bytes) type
  = Some {| blobBytes := bytes; blobType := normalizeType type |}
  /\ normalizeType (JSString.lit "audio/mpeg") = JSString.lit "audio/mpeg".
Proof.
  split; [|reflexivity].
  unfold base64ToBlob. rewrite atob_encode.
  pose proof (fillLoop_fills (List.length (map Byte.to_N bytes)) []
                (map Byte.to_N bytes) eq_refl) as L.
  cbn [app map List.length] in L. cbv zeta. unfold element in *. rewrite L.
  unfold newBlob. cbn [List.concat]. rewrite app_nil_r, !map_map.
  do 2 f_equal. rewrite <- (map_id bytes) at 2.
  apply map_ext. intros b. apply toUint8_byte.
Qed.

(** C10, as stated, fails on a type with an upper-case letter: the blob
    made from the encoding of the bytes of "Hi" and the type "Audio/MPEG"
    has the type "audio/mpeg". *)
Lemma base64ToBlob_type_not_kept :
  base64ToBlob (Base64.encode [Byte.x48; Byte.x69]) (JSString.lit "Audio/MPEG")
  <> Some {| blobBytes := [Byte.x48; Byte.x69];
             blobType := JSString.lit "Audio/MPEG" |}.
Proof. vm_compute. discriminate. Qed.

Example base64ToBlob_type_lowered :
  base64ToBlob (JSString.lit "SGk=") (JSString.lit "Audio/MPEG")
  = Some {| blobBytes := [Byte.x48; Byte.x69];
            blobType := JSString.lit "audio/mpeg" |}.
Proof. reflexivity. Qed.

(** The test vectors of RFC 4648, section 10. *)
Example encode_rfc4648 :
  Base64.encode [Byte.x66] = JSString.lit "Zg=="
  /\ Base64.encode [Byte.x66; Byte.x6f] = JSString.lit "Zm8="
  /\ Base64.encode [Byte.x66; Byte.x6f; Byte.x6f] = JSString.lit "Zm9v"
  /\ Base64.encode [Byte.x66; Byte.x6f; Byte.x6f; Byte.x62] = JSString.lit "Zm9vYg==".
Proof. repeat split; reflexivity. Qed.

(** [atob] skips white space, accepts a missing padding, and throws on a
    character outside the alphabet or on a length of 4k+1. *)
Example atob_forgiving :
  Base64.atob (JSString.lit " Zm9v Yg ") = Some (JSString.lit "foob")
  /\ Base64.atob (JSString.lit "Zm9v*g==") = None
  /\ Base64.atob (JSString.lit "Zm9vY") = None
  /\ Base64.atob (JSString.lit "Zg=") = None.
Proof. repeat split; reflexivity. Qed.

(* ===================================================================== *)
(** * Further properties of the code *)
(* ===================================================================== *)

(** ** The direction extractor *)

Section ExtractorFacts.

Lemma test_engine_independent (E1 E2 : Engine) text :
  @test E1 rightRegExp text = @test E2 rightRegExp text
  /\ @test E1 leftRegExp text = @test E2 leftRegExp text.
Proof.
  split.
  - destruct (@test E1 rightRegExp text) eqn:T1, (@test E2 rightRegExp text) eqn:T2;
      try reflexivity.
    + apply (@test_rightRegExp E1), (@test_rightRegExp E2) in T1. congruence.
    + apply (@test_rightRegExp E2), (@test_rightRegExp E1) in T2. congruence.
  - destruct (@test E1 leftRegExp text) eqn:T1, (@test E2 leftRegExp text) eqn:T2;
      try reflexivity.
    + apply (@test_leftRegExp E1), (@test_leftRegExp E2) in T1. congruence.
    + apply (@test_leftRegExp E2), (@test_leftRegExp E1) in T2. congruence.
Qed.

(** X1: the value of [extractPan] does not depend on the engine: whatever
    the case conversion table outside ASCII, the same text gives the same
    pan. *)
Theorem extractPan_engine_independent (E1 E2 : Engine) text :
  @extractPan E1 text = @extractPan E2 text.
Proof.
  rewrite (@extractPan_tests E1), (@extractPan_tests E2).
  destruct (test_engine_independent E1 E2 text) as [-> ->]. reflexivity.
Qed.

Lemma pan_values_distinct :
  0.6%float <> (- 0.6)%float /\ 0.6%float <> 0%float /\ (- 0.6)%float <> 0%float.
Proof.
  split; [|split]; intros E.
  - apply (f_equal (fun x => PrimFloat.ltb 0%float x)) in E. discriminate E.
  - apply (f_equal (fun x => PrimFloat.ltb 0%float x)) in E. discriminate E.
  - apply (f_equal (fun x => PrimFloat.ltb x 0%float)) in E. discriminate E.
Qed.

(** X2: [extractPan] reports a direction only on a phrase: it is 0.6
    exactly on the texts with a right-range phrase, -0.6 exactly on those
    with a left-range phrase and no right-range one, and 0 exactly on those
    with neither. *)
Theorem extractPan_characterized `{Engine} text :
  (extractPan text = 0.6%float <-> Phrase.right text)
  /\ (extractPan text = (- 0.6)%float
      <-> Phrase.left text /\ ~ Phrase.right text)
  /\ (extractPan text = 0%float
      <-> ~ Phrase.right text /\ ~ Phrase.left text).
Proof.
  destruct pan_values_distinct as (D1 & D2 & D3).
  rewrite extractPan_tests.
  assert (R : if test rightRegExp text then Phrase.right text
              else ~ Phrase.right text).
  { destruct (test rightRegExp text) eqn:T.
    - apply test_rightRegExp, T.
    - intros X. apply test_rightRegExp in X. congruence. }
  assert (L : if test leftRegExp text then Phrase.left text
              else ~ Phrase.left text).
  { destruct (test leftRegExp text) eqn:T.
    - apply test_leftRegExp, T.
    - intros X. apply test_leftRegExp in X. congruence. }
  destruct (test rightRegExp text), (test leftRegExp text);
    intuition congruence.
Qed.

(** *** Letter case *)

Lemma sameChar_map (f : N -> N) :
  (forall c, Phrase.lower (f c) = Phrase.lower c) ->
  forall mid s,
    Forall2 Phrase.sameChar (map f mid) s <-> Forall2 Phrase.sameChar mid s.
Proof.
  intros Hf. unfold Phrase.sameChar.
  induction mid as [|c mid IH]; intros s.
  - simpl. split; intros F; inversion F; constructor.
  - simpl. split; intros F; inversion F as [|x y l l' Hxy F' E1 E2]; subst;
      constructor; try (apply IH; exact F'); rewrite Hf in *; exact Hxy.
Qed.

Lemma isWordChar_map (f : N -> N) c :
  Phrase.lower (f c) = Phrase.lower c ->
  Phrase.isWordChar (f c) = Phrase.isWordChar c.
Proof.
  intros Hf. rewrite <- (isWordChar_lower (f c)), Hf. apply isWordChar_lower.
Qed.

Lemma endsClean_map (f : N -> N) pre :
  (forall c, Phrase.lower (f c) = Phrase.lower c) ->
  Phrase.endsClean (map f pre) <-> Phrase.endsClean pre.
Proof.
  intros Hf. rewrite !endsClean_rev, <- map_rev.
  destruct (rev pre) as [|c r]; simpl; [tauto|].
  rewrite (isWordChar_map f c (Hf c)). tauto.
Qed.

Lemma startsClean_map (f : N -> N) post :
  (forall c, Phrase.lower (f c) = Phrase.lower c) ->
  Phrase.startsClean (map f post) <-> Phrase.startsClean post.
Proof.
  intros Hf. rewrite !startsClean_hd.
  destruct post as [|c r]; simpl; [tauto|].
  rewrite (isWordChar_map f c (Hf c)). tauto.
Qed.

(** Changing the case of letters keeps the occurrences of a phrase. *)
Lemma occursIn_map (f : N -> N) phrase text :
  (forall c, Phrase.lower (f c) = Phrase.lower c) ->
  Phrase.occursIn phrase (map f text) <-> Phrase.occursIn phrase text.
Proof.
  intros Hf. unfold Phrase.occursIn. split.
  - intros (pre & mid & post & E & F & Hpre & Hpost).
    apply map_eq_app in E as (pre' & rest & -> & <- & E).
    apply map_eq_app in E as (mid' & post' & -> & <- & <-).
    exists pre', mid', post'. split; [reflexivity|].
    split; [apply (sameChar_map f Hf), F|].
    split; [apply (endsClean_map f pre' Hf), Hpre
           | apply (startsClean_map f post' Hf), Hpost].
  - intros (pre & mid & post & -> & F & Hpre & Hpost).
    exists (map f pre), (map f mid), (map f post).
    rewrite !map_app. split; [reflexivity|].
    split; [apply (sameChar_map f Hf), F|].
    split; [apply (endsClean_map f pre Hf), Hpre
           | apply (startsClean_map f post Hf), Hpost].
Qed.

Lemma extractPan_map `{Engine} (f : N -> N) text :
  (forall c, Phrase.lower (f c) = Phrase.lower c) ->
  extractPan (map f text) = extractPan text.
Proof.
  intros Hf. rewrite !extractPan_tests.
  assert (R : test rightRegExp (map f text) = test rightRegExp text).
  { destruct (test rightRegExp text) eqn:T.
    - apply test_rightRegExp. apply test_rightRegExp in T.
      unfold Phrase.right in *. rewrite !(occursIn_map f _ text Hf). exact T.
    - destruct (test rightRegExp (map f text)) eqn:T'; [|reflexivity].
      apply test_rightRegExp in T'. unfold Phrase.right in T'.
      rewrite !(occursIn_map f _ text Hf) in T'.
      apply test_rightRegExp in T'. congruence. }
  assert (L : test leftRegExp (map f text) = test leftRegExp text).
  { destruct (test leftRegExp text) eqn:T.
    - apply test_leftRegExp. apply test_leftRegExp in T.
      unfold Phrase.left in *. rewrite !(occursIn_map f _ text Hf). exact T.
    - destruct (test leftRegExp (map f text)) eqn:T'; [|reflexivity].
      apply test_leftRegExp in T'. unfold Phrase.left in T'.
      rewrite !(occursIn_map f _ text Hf) in T'.
      apply test_leftRegExp in T'. congruence. }
  rewrite R, L. reflexivity.
Qed.

(** X3: the case of the ASCII letters of the text does not matter: the
    text in upper case and the text in lower case give the pan of the text
    itself. *)
Theorem extractPan_case_insensitive `{Engine} text :
  extractPan (map asciiUpper text) = extractPan text
  /\ extractPan (map asciiLower text) = extractPan text.
Proof.
  split; apply extractPan_map; intros c.
  - unfold Phrase.lower, Phrase.isUpperLetter, asciiUpper.
    destruct (N.leb_spec 97 c), (N.leb_spec c 122); simpl;
      cases_on_comparisons.
  - unfold Phrase.lower, Phrase.isUpperLetter, asciiLower.
    destruct (N.leb_spec 65 c), (N.leb_spec c 90); simpl;
      cases_on_comparisons.
Qed.

(** *** Texts without a cue *)

Lemma Forall2_In_r {A B} (R : A -> B -> Prop) l1 l2 b :
  Forall2 R l1 l2 -> In b l2 -> exists a, In a l1 /\ R a b.
Proof.
  induction 1 as [|x y l l' Hxy F IH]; intros Hb; [contradiction|].
  destruct Hb as [<- | Hb].
  - exists x. split; [left; reflexivity | exact Hxy].
  - destruct (IH Hb) as (a & Ha & Hab). exists a. split; [right; exact Ha | exact Hab].
Qed.

(** An occurrence needs room for the phrase and, for each character of
    the phrase, that character in one of its cases. *)
Lemma occursIn_needs phrase text :
  Phrase.occursIn phrase text ->
  (String.length phrase <= List.length text)%nat
  /\ forall a, In a (JSString.lit phrase) ->
               exists c, In c text /\ Phrase.sameChar c a.
Proof.
  intros (pre & mid & post & -> & F & _ & _). split.
  - rewrite <- length_lit, <- (Forall2_length F), !length_app. lia.
  - intros a Ha. destruct (Forall2_In_r _ _ _ _ F Ha) as (c & Hc & Hca).
    exists c. split; [|exact Hca].
    apply in_or_app. right. apply in_or_app. left. exact Hc.
Qed.

Lemma sameChar_apostrophe c : Phrase.sameChar c 39%N -> c = 39%N.
Proof.
  unfold Phrase.sameChar, Phrase.lower, Phrase.isUpperLetter.
  change ((65 <=? 39)%N && (39 <=? 90)%N) with false. cbv iota.
  destruct (N.leb_spec 65 c), (N.leb_spec c 90); simpl; lia.
Qed.

Lemma no_cue_no_phrase phrase text :
  (9 <= String.length phrase)%nat ->
  In 39%N (JSString.lit phrase) ->
  (List.length text < 9)%nat \/ ~ In 39%N text ->
  ~ Phrase.occursIn phrase text.
Proof.
  intros Hlen Hap Htext Hocc.
  destruct (occursIn_needs phrase text Hocc) as (Hroom & Hchars).
  destruct Htext as [Hshort | Hno]; [lia|].
  destruct (Hchars 39%N Hap) as (c & Hc & Hsame).
  apply sameChar_apostrophe in Hsame. subst c. exact (Hno Hc).
Qed.

(** X4: a text of fewer than nine code units, or one without an
    apostrophe, carries no cue: its pan is 0. *)
Theorem extractPan_no_cue `{Engine} text :
  (List.length text < 9)%nat \/ ~ In 39%N text -> extractPan text = 0%float.
Proof.
  intros Htext. rewrite extractPan_tests.
  assert (Hno : forall phrase,
             (9 <= String.length phrase)%nat -> In 39%N (JSString.lit phrase) ->
             ~ Phrase.occursIn phrase text).
  { intros phrase H1 H2. exact (no_cue_no_phrase phrase text H1 H2 Htext). }
  rewrite not_right_test, not_left_test; [reflexivity| |].
  - intros [X | [X | X]]; revert X; apply Hno; simpl; try lia; tauto.
  - intros [X | [X | X]]; revert X; apply Hno; simpl; try lia; tauto.
Qed.

End ExtractorFacts.

Lemma extractPan_no_cue_oclock :
  ~ In 39%N (JSString.lit "Chair at 3 oclock")
  /\ @extractPan asciiEngine (JSString.lit "Chair at 3 oclock") = 0%float.
Proof.
  assert (Hno : ~ In 39%N (JSString.lit "Chair at 3 oclock")).
  { simpl. intuition discriminate. }
  split; [exact Hno|].
  exact (@extractPan_no_cue asciiEngine (JSString.lit "Chair at 3 oclock")
           (or_intror Hno)).
Defined.

(** ** Texts joined by a separator *)

Section Joined.

Lemma Forall2_In_l {A B} (R : A -> B -> Prop) l1 l2 a :
  Forall2 R l1 l2 -> In a l1 -> exists b, In b l2 /\ R a b.
Proof.
  induction 1 as [|x y l l' Hxy F IH]; intros Ha; [contradiction|].
  destruct Ha as [<- | Ha].
  - exists y. split; [left; reflexivity | exact Hxy].
  - destruct (IH Ha) as (b & Hb & Hab). exists b. split; [right; exact Hb | exact Hab].
Qed.

Lemma sameChar_space c : Phrase.sameChar c 32%N -> c = 32%N.
Proof.
  unfold Phrase.sameChar, Phrase.lower, Phrase.isUpperLetter.
  change ((65 <=? 32)%N && (32 <=? 90)%N) with false. cbv iota.
  destruct (N.leb_spec 65 c), (N.leb_spec c 90); simpl; lia.
Qed.

(** A separator stands for no character of a plain phrase. *)
Lemma separator_not_in_match sep phrase mid :
  isSeparator sep = true -> plainPhrase phrase = true ->
  Forall2 Phrase.sameChar mid (JSString.lit phrase) ->
  ~ In sep mid /\ mid <> [].
Proof.
  unfold isSeparator, plainPhrase. intros Hsep Hp F.
  apply andb_true_iff in Hsep as [Hsep H39]. apply andb_true_iff in Hsep as [Hw H32].
  apply andb_true_iff in Hp as [Hp Hlen].
  apply negb_true_iff in Hw, H32, H39, Hlen.
  apply N.eqb_neq in H32, H39. split.
  - intros Hin. destruct (Forall2_In_l _ _ _ _ F Hin) as (a & Ha & Hsa).
    rewrite forallb_forall in Hp. specialize (Hp a Ha).
    apply orb_true_iff in Hp as [Hp | Hp]; [apply orb_true_iff in Hp as [Hp | Hp]|].
    + rewrite <- (sameChar_isWordChar _ _ Hsa) in Hp. congruence.
    + apply N.eqb_eq in Hp. subst a. apply sameChar_space in Hsa. contradiction.
    + apply N.eqb_eq in Hp. subst a. apply sameChar_apostrophe in Hsa. contradiction.
  - intros ->. apply Forall2_length in F. rewrite length_lit in F.
    simpl in F. rewrite <- F in Hlen. discriminate.
Qed.

(** Across a separator, the occurrences of a phrase are those of the two
    sides. *)
Lemma occursIn_joined phrase a sep b :
  isSeparator sep = true -> plainPhrase phrase = true ->
  Phrase.occursIn phrase (a ++ sep :: b)
  <-> Phrase.occursIn phrase a \/ Phrase.occursIn phrase b.
Proof.
  intros Hsep Hp.
  assert (Hw : Phrase.isWordChar sep = false).
  { unfold isSeparator in Hsep. apply andb_true_iff in Hsep as [Hsep _].
    apply andb_true_iff in Hsep as [Hsep _]. apply negb_true_iff, Hsep. }
  unfold Phrase.occursIn. split.
  - intros (pre & mid & post & E & F & Hpre & Hpost).
    destruct (separator_not_in_match sep phrase mid Hsep Hp F) as (Hnot & Hne).
    apply app_eq_app in E as [l [[Ea E] | [Epre E]]].
    + left. apply app_eq_app in E as [l' [[Emid E] | [El Epost]]].
      * destruct l' as [|c l''].
        -- rewrite app_nil_r in Emid. subst l. simpl in E. subst post.
           exists pre, mid, []. rewrite app_nil_r. split; [exact Ea|].
           split; [exact F|]. split; [exact Hpre|].
           intros c post' Ec. discriminate Ec.
        -- injection E as <- _. exfalso. apply Hnot. rewrite Emid.
           apply in_or_app. right. left. reflexivity.
      * subst l post. exists pre, mid, l'. rewrite Ea. split; [reflexivity|].
        split; [exact F|]. split; [exact Hpre|].
        apply startsClean_hd. apply startsClean_hd in Hpost.
        destruct l'; [trivial | exact Hpost].
    + right. destruct l as [|c l''].
      * simpl in E. destruct mid as [|c mid']; [congruence|].
        injection E as -> _. exfalso. apply Hnot. left. reflexivity.
      * injection E as <- E. exists l'', mid, post. split; [exact E|].
        split; [exact F|]. split; [|exact Hpost].
        apply endsClean_rev. apply endsClean_rev in Hpre.
        rewrite Epre, rev_app_distr in Hpre. simpl in Hpre.
        rewrite <- app_assoc in Hpre.
        destruct (rev l''); [trivial | exact Hpre].
  - intros [(pre & mid & post & -> & F & Hpre & Hpost)
           | (pre & mid & post & -> & F & Hpre & Hpost)].
    + exists pre, mid, (post ++ sep :: b). rewrite <- !app_assoc.
      split; [reflexivity|]. split; [exact F|]. split; [exact Hpre|].
      apply startsClean_hd. apply startsClean_hd in Hpost.
      destruct post; [exact Hw | exact Hpost].
    + exists (a ++ sep :: pre), mid, post. rewrite <- app_assoc.
      split; [reflexivity|]. split; [exact F|]. split; [|exact Hpost].
      apply endsClean_rev. apply endsClean_rev in Hpre.
      rewrite rev_app_distr. simpl. rewrite <- app_assoc.
      destruct (rev pre); [exact Hw | exact Hpre].
Qed.

Lemma test_joined `{Engine} a sep b :
  isSeparator sep = true ->
  test rightRegExp (a ++ sep :: b) = test rightRegExp a || test rightRegExp b
  /\ test leftRegExp (a ++ sep :: b) = test leftRegExp a || test leftRegExp b.
Proof.
  intros Hsep.
  assert (R : Phrase.right (a ++ sep :: b) <-> Phrase.right a \/ Phrase.right b).
  { unfold Phrase.right. rewrite !(occursIn_joined _ a sep b Hsep) by reflexivity.
    tauto. }
  assert (L : Phrase.left (a ++ sep :: b) <-> Phrase.left a \/ Phrase.left b).
  { unfold Phrase.left. rewrite !(occursIn_joined _ a sep b Hsep) by reflexivity.
    tauto. }
  rewrite <- !test_rightRegExp in R. rewrite <- !test_leftRegExp in L.
  split.
  - destruct (test rightRegExp (a ++ sep :: b)), (test rightRegExp a),
      (test rightRegExp b); simpl in *; intuition congruence.
  - destruct (test leftRegExp (a ++ sep :: b)), (test leftRegExp a),
      (test leftRegExp b); simpl in *; intuition congruence.
Qed.

(** X5: the pan of two texts joined by a separator is the pan of their
    cues together: 0.6 when one of them gives 0.6, else -0.6 when one of
    them gives -0.6, else 0. *)
Theorem extractPan_joined `{Engine} a sep b :
  isSeparator sep = true ->
  extractPan (a ++ sep :: b) = mergePan (extractPan a) (extractPan b).
Proof.
  intros Hsep. rewrite !extractPan_tests.
  destruct (test_joined a sep b Hsep) as [-> ->].
  destruct (test rightRegExp a), (test rightRegExp b), (test leftRegExp a),
    (test leftRegExp b); reflexivity.
Qed.

End Joined.

Lemma extractPan_joined_scenario4 :
  isSeparator 59%N = true
  /\ @extractPan asciiEngine
       (JSString.lit "Exit at 9 o'clock" ++ 59%N :: JSString.lit " stairs at 3 o'clock, CAUTION")
     = mergePan (@extractPan asciiEngine (JSString.lit "Exit at 9 o'clock"))
         (@extractPan asciiEngine (JSString.lit " stairs at 3 o'clock, CAUTION")).
Proof.
  split; [reflexivity|].
  exact (@extractPan_joined asciiEngine (JSString.lit "Exit at 9 o'clock") 59%N
           (JSString.lit " stairs at 3 o'clock, CAUTION") eq_refl).
Defined.

(** ** [base64ToBlob] on any input *)

Section BlobFacts.

(** The loop of [base64ToBlob] computes the character codes of the whole
    string, whatever the string. *)
Lemma base64ToBlob_atob base64 type :
  base64ToBlob base64 type
  = match Base64.atob base64 with
    | None => None
    | Some byteCharacters =>
        Some {| blobBytes := map (fun c => toUint8 (Some c)) byteCharacters;
                blobType := normalizeType type |}
    end.
Proof.
  unfold base64ToBlob. destruct (Base64.atob base64) as [s|]; [|reflexivity].
  pose proof (fillLoop_fills (List.length s) [] s eq_refl) as L.
  cbn [app map List.length] in L. cbv zeta. unfold element in *. rewrite L.
  unfold newBlob. cbn [List.concat]. rewrite app_nil_r, map_map. reflexivity.
Qed.

Lemma base64ToBlob_bytes bytes type :
  base64ToBlob (Base64.encode bytes) type
  = Some {| blobBytes := bytes; blobType := normalizeType type |}.
Proof.
  rewrite base64ToBlob_atob, atob_encode, map_map. do 2 f_equal.
  rewrite <- (map_id bytes) at 2. apply map_ext. intros b. apply toUint8_byte.
Qed.

Lemma encode_nonempty bytes : bytes <> [] -> Base64.encode bytes <> [].
Proof.
  destruct bytes as [|a [|b [|c rest]]]; [congruence | | |]; intros _;
    cbn [Base64.encode]; discriminate.
Qed.

End BlobFacts.

(** ** The runs of [speakDescription] *)

Section SpeakFacts.
Context `{Engine}.

Lemma speakDescription_first_steps ch text' w st :
  speakDescription (ch :: text') w st
  = match tts w (ch :: text') with
    | FetchRejects e | JsonRejects e =>
        (Normal tt, after st [PostTts (ch :: text'); ConsoleError e])
    | JsonData JNull =>
        (Normal tt, after st [PostTts (ch :: text'); ConsoleError TypeError])
    | JsonData data =>
        let audioBase64 := property "audioBase64" data in
        if negb (ToBoolean audioBase64)
        then (Normal tt, after st [PostTts (ch :: text')])
        else if toStringThrows audioBase64
        then (Normal tt, after st [PostTts (ch :: text'); ConsoleError TypeError])
        else
          match base64ToBlob (ToString audioBase64) (JSString.lit "audio/mpeg") with
          | None =>
              (Normal tt,
               after st [PostTts (ch :: text'); ConsoleError InvalidCharacterError])
          | Some audioBlob =>
              let audioUrl := ObjectURL (List.length (objectURLs st)) in
              let st1 :=
                {| trace := trace st ++ [PostTts (ch :: text');
                                         CreateObjectURL audioBlob;
                                         SetAudioSrc audioUrl];
                   objectURLs := objectURLs st ++ [audioBlob] |} in
              match playSpatial audioUrl (ch :: text') w st1 with
              | (Normal a, st2) => (Normal a, st2)
              | (Throw e, st2) => (Normal tt, after st2 [ConsoleError e])
              end
          end
    end.
Proof.
  unfold speakDescription.
  cbn [ToBoolean List.length Nat.eqb negb].
  unfold tryCatch, bind, fetchTts, bind, ask, ret, emit.
  cbn beta iota.
  destruct (tts w (ch :: text')) as [e | e | data];
    cbn [responseJson]; unfold throw, ret; cbn beta iota;
    try (unfold after; cbn [trace objectURLs]; rewrite <- app_assoc; reflexivity).
  unfold getProperty, throw, ret.
  destruct data; cbn beta iota zeta;
    try (unfold after; cbn [trace objectURLs]; rewrite <- app_assoc; reflexivity);
    (destruct (negb (ToBoolean _)); [reflexivity|]);
    (destruct (toStringThrows _);
     [unfold after; cbn [trace objectURLs]; rewrite <- app_assoc; reflexivity|]);
    (destruct (base64ToBlob _ _) as [audioBlob|];
     [|unfold after; cbn [trace objectURLs]; rewrite <- app_assoc; reflexivity]);
    unfold createObjectURL; cbn beta iota; cbn [trace objectURLs];
    rewrite <- !app_assoc; cbn [app]; reflexivity.
Qed.

Ltac same_state :=
  unfold after; cbn [trace objectURLs];
  rewrite <- ?app_assoc, ?app_nil_r; cbn [app]; reflexivity.

Lemma speakDescription_spatial_step ch text' w st audioBlob :
  let text := ch :: text' in
  let audioUrl := ObjectURL (List.length (objectURLs st)) in
  let st1 :=
    {| trace := trace st ++ [PostTts text; CreateObjectURL audioBlob;
                             SetAudioSrc audioUrl];
       objectURLs := objectURLs st ++ [audioBlob] |} in
  playSpatial audioUrl text w st1
  = match audioContextFailure w with
    | Some e => (Throw e, after st1 [NewAudioContext])
    | None =>
        match decodeAudioData w (blobBytes audioBlob) with
        | None =>
            (Throw EncodingError,
             after st1 [NewAudioContext; FetchUrl audioUrl;
                        DecodeAudioData (blobBytes audioBlob)])
        | Some decoded =>
            (Normal tt,
             after st1 (playbackEvents audioUrl (blobBytes audioBlob) decoded
                          (extractPan text)))
        end
    end.
Proof.
  intros text audioUrl st1. unfold audioUrl. rewrite playSpatial_run.
  subst st1. cbn [objectURLs].
  rewrite nth_error_app2, Nat.sub_diag by lia. reflexivity.
Qed.

(** X6: whatever the host does, [speakDescription] returns normally; a
    call sends at most one request to the TTS endpoint, makes at most one
    object URL, starts at most one playback and reports at most one error,
    and it never both reports an error and starts a playback. *)
Theorem speakDescription_outcome text w st :
  exists evs urls,
    speakDescription text w st
    = (Normal tt, {| trace := trace st ++ evs;
                     objectURLs := objectURLs st ++ urls |})
    /\ (List.length (filter isPostTts evs) <= 1)%nat
    /\ (List.length urls <= 1)%nat
    /\ (List.length (filter isStart evs) <= 1)%nat
    /\ (List.length (filter isConsoleError evs) <= 1)%nat
    /\ existsb isStart evs && existsb isConsoleError evs = false.
Proof.
  destruct text as [|ch text'].
  { exists [], []. split; [destruct st; cbn; rewrite !app_nil_r; reflexivity|].
    cbn. repeat split; lia. }
  rewrite speakDescription_first_steps.
  destruct (tts w (ch :: text')) as [e | e | data].
  1, 2: exists [PostTts (ch :: text'); ConsoleError e], [];
    (split; [same_state | cbn; repeat split; lia]).
  assert (Hnull : exists evs urls,
             (Normal tt, after st [PostTts (ch :: text'); ConsoleError TypeError])
             = (Normal tt, {| trace := trace st ++ evs;
                              objectURLs := objectURLs st ++ urls |})
             /\ (List.length (filter isPostTts evs) <= 1)%nat
             /\ (List.length urls <= 1)%nat
             /\ (List.length (filter isStart evs) <= 1)%nat
             /\ (List.length (filter isConsoleError evs) <= 1)%nat
             /\ existsb isStart evs && existsb isConsoleError evs = false).
  { exists [PostTts (ch :: text'); ConsoleError TypeError], [].
    split; [same_state | cbn; repeat split; lia]. }
  assert (Hrest : forall audioBase64 : value,
             exists evs urls,
               (if negb (ToBoolean audioBase64)
                then (Normal tt, after st [PostTts (ch :: text')])
                else if toStringThrows audioBase64
                then (Normal tt,
                      after st [PostTts (ch :: text'); ConsoleError TypeError])
                else
                  match base64ToBlob (ToString audioBase64)
                          (JSString.lit "audio/mpeg") with
                  | None =>
                      (Normal tt,
                       after st [PostTts (ch :: text');
                                 ConsoleError InvalidCharacterError])
                  | Some audioBlob =>
                      let audioUrl := ObjectURL (List.length (objectURLs st)) in
                      let st1 :=
                        {| trace := trace st ++ [PostTts (ch :: text');
                                                 CreateObjectURL audioBlob;
                                                 SetAudioSrc audioUrl];
                           objectURLs := objectURLs st ++ [audioBlob] |} in
                      match playSpatial audioUrl (ch :: text') w st1 with
                      | (Normal a, st2) => (Normal a, st2)
                      | (Throw e, st2) => (Normal tt, after st2 [ConsoleError e])
                      end
                  end)
               = (Normal tt, {| trace := trace st ++ evs;
                                objectURLs := objectURLs st ++ urls |})
               /\ (List.length (filter isPostTts evs) <= 1)%nat
               /\ (List.length urls <= 1)%nat
               /\ (List.length (filter isStart evs) <= 1)%nat
               /\ (List.length (filter isConsoleError evs) <= 1)%nat
               /\ existsb isStart evs && existsb isConsoleError evs = false).
  { intros audioBase64. destruct (negb (ToBoolean audioBase64)).
    { exists [PostTts (ch :: text')], [].
      split; [same_state | cbn; repeat split; lia]. }
    destruct (toStringThrows audioBase64).
    { exists [PostTts (ch :: text'); ConsoleError TypeError], [].
      split; [same_state | cbn; repeat split; lia]. }
    destruct (base64ToBlob _ _) as [audioBlob|].
    2: { exists [PostTts (ch :: text'); ConsoleError InvalidCharacterError], [].
         split; [same_state | cbn; repeat split; lia]. }
    cbv zeta. rewrite speakDescription_spatial_step.
    set (audioUrl := ObjectURL (List.length (objectURLs st))).
    destruct (audioContextFailure w) as [e|].
    { exists [PostTts (ch :: text'); CreateObjectURL audioBlob;
              SetAudioSrc audioUrl; NewAudioContext; ConsoleError e], [audioBlob].
      split; [same_state | cbn; repeat split; lia]. }
    destruct (decodeAudioData w (blobBytes audioBlob)) as [decoded|].
    - exists ([PostTts (ch :: text'); CreateObjectURL audioBlob;
               SetAudioSrc audioUrl]
              ++ playbackEvents audioUrl (blobBytes audioBlob) decoded
                   (extractPan (ch :: text'))), [audioBlob].
      split; [unfold playbackEvents; same_state
             | cbn; repeat split; lia].
    - exists [PostTts (ch :: text'); CreateObjectURL audioBlob;
              SetAudioSrc audioUrl; NewAudioContext; FetchUrl audioUrl;
              DecodeAudioData (blobBytes audioBlob);
              ConsoleError EncodingError], [audioBlob].
      split; [same_state | cbn; repeat split; lia]. }
  destruct data; try exact Hnull; apply Hrest.
Qed.

(** X7: from the answer of the endpoint to the loudspeaker.  When the
    endpoint answers with the standard base64 encoding of a non-empty byte
    sequence and the host decodes these bytes, [speakDescription] makes a
    blob of exactly these bytes with the type "audio/mpeg", hands exactly
    these bytes to the decoder, sets the pan to [extractPan text] and
    starts the playback, whatever object URLs existed before. *)
Theorem speakDescription_plays text w st data bytes decoded :
  text <> [] ->
  tts w text = JsonData data ->
  property "audioBase64" data = Some (JString (Base64.encode bytes)) ->
  bytes <> [] ->
  audioContextFailure w = None ->
  decodeAudioData w bytes = Some decoded ->
  let audioBlob := {| blobBytes := bytes; blobType := JSString.lit "audio/mpeg" |} in
  let audioUrl := ObjectURL (List.length (objectURLs st)) in
  speakDescription text w st
  = (Normal tt,
     {| trace := trace st ++
                 [PostTts text; CreateObjectURL audioBlob; SetAudioSrc audioUrl]
                 ++ playbackEvents audioUrl bytes decoded (extractPan text);
        objectURLs := objectURLs st ++ [audioBlob] |}).
Proof.
  intros Htext Htts Hprop Hbytes Hctx Hdec audioBlob audioUrl.
  destruct text as [|ch text']; [congruence|].
  rewrite speakDescription_first_steps, Htts.
  assert (Hdata : data <> JNull) by (intros ->; discriminate Hprop).
  assert (Htruthy : negb (ToBoolean (Some (JString (Base64.encode bytes)))) = false).
  { pose proof (encode_nonempty bytes Hbytes) as Hne. cbn [ToBoolean].
    destruct (Base64.encode bytes); [congruence | reflexivity]. }
  assert (Hblob : base64ToBlob (ToString (Some (JString (Base64.encode bytes))))
                    (JSString.lit "audio/mpeg") = Some audioBlob).
  { cbn [ToString ToStringJson]. rewrite base64ToBlob_bytes. reflexivity. }
  destruct data; try congruence; cbv zeta; rewrite Hprop, Htruthy;
    cbn [toStringThrows throwsJson]; rewrite Hblob;
    rewrite speakDescription_spatial_step, Hctx; cbn [blobBytes audioBlob];
    rewrite Hdec; unfold playbackEvents; same_state.
Qed.

(** X8: when the payload of the answer cannot be decoded, the error is
    reported on the console, no object URL is made and nothing is played.
    The error is a TypeError when the payload cannot be converted to a
    string (an object with a member [toString]), and else the
    InvalidCharacterError of [atob] when the string is not base64 (a
    character outside the alphabet, a length of 4k+1). *)
Theorem speakDescription_bad_base64 text w st data :
  text <> [] ->
  tts w text = JsonData data ->
  data <> JNull ->
  ToBoolean (property "audioBase64" data) = true ->
  Base64.atob (ToString (property "audioBase64" data)) = None ->
  speakDescription text w st
  = (Normal tt,
     after st [PostTts text;
               ConsoleError
                 (if toStringThrows (property "audioBase64" data)
                  then TypeError else InvalidCharacterError)]).
Proof.
  intros Htext Htts Hdata Htruthy Hatob.
  destruct text as [|ch text']; [congruence|].
  rewrite speakDescription_first_steps, Htts.
  destruct data; try congruence; cbv zeta; rewrite Htruthy; cbn [negb];
    (destruct (toStringThrows _); [reflexivity|]);
    rewrite base64ToBlob_atob, Hatob; reflexivity.
Qed.

(** X9: when the request to the TTS endpoint fails, or its answer is not
    JSON, the error is reported on the console and nothing else happens:
    no object URL, no audio context, no playback. *)
Theorem speakDescription_request_fails text w st e :
  text <> [] ->
  tts w text = FetchRejects e \/ tts w text = JsonRejects e ->
  speakDescription text w st
  = (Normal tt, after st [PostTts text; ConsoleError e]).
Proof.
  intros Htext Htts.
  destruct text as [|ch text']; [congruence|].
  rewrite speakDescription_first_steps.
  destruct Htts as [-> | ->]; reflexivity.
Qed.

(** X10: [playSpatial] keeps the earlier trace and the object URLs, and
    it completes normally exactly when it has started the playback: when
    it throws, no [Start] happened; the pan is never set without the
    playback starting in the same run. *)
Theorem playSpatial_starts_or_throws audioUrl text w st :
  exists c evs,
    playSpatial audioUrl text w st = (c, after st evs)
    /\ (c = Normal tt <-> existsb isStart evs = true)
    /\ existsb isSetPan evs = existsb isStart evs.
Proof.
  destruct audioUrl as [id]. rewrite playSpatial_run.
  destruct (audioContextFailure w) as [e|].
  { do 2 eexists. split; [reflexivity|]. cbn. split; [|reflexivity].
    split; intros X; discriminate X. }
  destruct (nth_error (objectURLs st) id) as [b|].
  2: { do 2 eexists. split; [reflexivity|]. cbn. split; [|reflexivity].
       split; intros X; discriminate X. }
  destruct (decodeAudioData w (blobBytes b)) as [decoded|].
  - do 2 eexists. split; [reflexivity|]. cbn. split; [|reflexivity].
    split; reflexivity.
  - do 2 eexists. split; [reflexivity|]. cbn. split; [|reflexivity].
    split; intros X; discriminate X.
Qed.

End SpeakFacts.

Lemma speakDescription_plays_good :
  let audioBlob := {| blobBytes := zeroBytes; blobType := JSString.lit "audio/mpeg" |} in
  scenario1 <> []
  /\ tts goodWorld scenario1 = JsonData (audioAnswer zeroBytes)
  /\ property "audioBase64" (audioAnswer zeroBytes)
     = Some (JString (Base64.encode zeroBytes))
  /\ zeroBytes <> []
  /\ audioContextFailure goodWorld = None
  /\ decodeAudioData goodWorld zeroBytes = Some (PCM [])
  /\ @speakDescription asciiEngine scenario1 goodWorld oneBlobState
     = (Normal tt,
        {| trace := [PostTts scenario1; CreateObjectURL audioBlob;
                     SetAudioSrc (ObjectURL 1)]
                    ++ playbackEvents (ObjectURL 1) zeroBytes (PCM []) 0.6%float;
           objectURLs := [mpegBlob; audioBlob] |}).
Proof.
  intros audioBlob.
  assert (H1 : scenario1 <> []) by discriminate.
  assert (H2 : tts goodWorld scenario1 = JsonData (audioAnswer zeroBytes))
    by reflexivity.
  assert (H3 : property "audioBase64" (audioAnswer zeroBytes)
               = Some (JString (Base64.encode zeroBytes))) by reflexivity.
  assert (H4 : zeroBytes <> []) by discriminate.
  assert (H5 : audioContextFailure goodWorld = None) by reflexivity.
  assert (H6 : decodeAudioData goodWorld zeroBytes = Some (PCM [])) by reflexivity.
  repeat (split; [assumption|]).
  exact (@speakDescription_plays asciiEngine scenario1 goodWorld oneBlobState
           (audioAnswer zeroBytes) zeroBytes (PCM []) H1 H2 H3 H4 H5 H6).
Defined.

Lemma speakDescription_bad_base64_garbled :
  let data := JObject [(JSString.lit "audioBase64", JString (JSString.lit "%%%"))] in
  scenario1 <> []
  /\ tts garbledWorld scenario1 = JsonData data
  /\ data <> JNull
  /\ ToBoolean (property "audioBase64" data) = true
  /\ Base64.atob (@ToString asciiEngine (property "audioBase64" data)) = None
  /\ @speakDescription asciiEngine scenario1 garbledWorld emptyState
     = (Normal tt,
        after emptyState [PostTts scenario1; ConsoleError InvalidCharacterError]).
Proof.
  intros data.
  assert (H1 : scenario1 <> []) by discriminate.
  assert (H2 : tts garbledWorld scenario1 = JsonData data) by reflexivity.
  assert (H3 : data <> JNull) by discriminate.
  assert (H4 : ToBoolean (property "audioBase64" data) = true) by reflexivity.
  assert (H5 : Base64.atob (@ToString asciiEngine (property "audioBase64" data))
               = None) by reflexivity.
  repeat (split; [assumption|]).
  exact (@speakDescription_bad_base64 asciiEngine scenario1 garbledWorld emptyState
           data H1 H2 H3 H4 H5).
Defined.

Lemma speakDescription_request_fails_offline :
  scenario1 <> []
  /\ (tts offlineWorld scenario1 = FetchRejects TypeError
      \/ tts offlineWorld scenario1 = JsonRejects TypeError)
  /\ @speakDescription asciiEngine scenario1 offlineWorld emptyState
     = (Normal tt, after emptyState [PostTts scenario1; ConsoleError TypeError]).
Proof.
  assert (H1 : scenario1 <> []) by discriminate.
  assert (H2 : tts offlineWorld scenario1 = FetchRejects TypeError
               \/ tts offlineWorld scenario1 = JsonRejects TypeError)
    by (left; reflexivity).
  repeat (split; [assumption|]).
  exact (@speakDescription_request_fails asciiEngine scenario1 offlineWorld
           emptyState TypeError H1 H2).
Defined.


(** ** [atob] and [base64ToBlob] on any string *)

Section DecoderFacts.

Lemma index_lt c n : Base64.index c = Some n -> (n < 64)%N.
Proof.
  unfold Base64.index.
  destruct (N.leb_spec 65 c), (N.leb_spec c 90); simpl;
    [intros [= <-]; lia | | |];
    (destruct (N.leb_spec 97 c), (N.leb_spec c 122); simpl;
     [intros [= <-]; lia | | |]);
    (destruct (N.leb_spec 48 c), (N.leb_spec c 57); simpl;
     [intros [= <-]; lia | | |]);
    (destruct (N.eqb_spec c 43); [intros [= <-]; lia|]);
    (destruct (N.eqb_spec c 47); [intros [= <-]; lia|]); discriminate.
Qed.

(** The decoder writes bytes only. *)
Lemma decodeLoop_bytes data : forall buffer width output out,
  bufferFits buffer width ->
  Forall (fun b => (b < 256)%N) output ->
  Base64.decodeLoop data buffer width output = Some out ->
  Forall (fun b => (b < 256)%N) out.
Proof.
  induction data as [|c data IH]; intros buffer width output out Hfit Hout.
  - cbn [Base64.decodeLoop].
    destruct Hfit as [[-> ->] | [[-> Hb] | [[-> Hb] | [-> Hb]]]]; cbn [Nat.eqb];
      intros [= <-]; try exact Hout;
      apply Forall_app; (split; [exact Hout|]);
      repeat constructor; divmod.
  - cbn [Base64.decodeLoop]. destruct (Base64.index c) as [n|] eqn:E; [|discriminate].
    apply index_lt in E.
    destruct Hfit as [[-> ->] | [[-> Hb] | [[-> Hb] | [-> Hb]]]];
      cbn [Nat.add Nat.eqb]; apply IH;
      try exact Hout;
      try (unfold bufferFits; first
             [ left; split; [reflexivity | lia]
             | right; left; split; [reflexivity | lia]
             | right; right; left; split; [reflexivity | lia]
             | right; right; right; split; [reflexivity | lia] ]).
    apply Forall_app. split; [exact Hout|]. repeat constructor; divmod.
Qed.

Lemma atob_bytes data s :
  Base64.atob data = Some s -> Forall (fun b => (b < 256)%N) s.
Proof.
  unfold Base64.atob, Base64.forgivingDecode.
  destruct (_ =? 1)%nat; [discriminate|].
  destruct (negb _); [discriminate|].
  apply decodeLoop_bytes; [left; split; reflexivity | constructor].
Qed.

Lemma toUint8_to_N c : (c < 256)%N -> Byte.to_N (toUint8 (Some c)) = c.
Proof.
  intros Hc. unfold toUint8. rewrite N.mod_small by exact Hc.
  destruct (Byte.of_N c) as [b|] eqn:E.
  - apply Byte.to_of_N. exact E.
  - apply Byte.of_N_None_iff in E. lia.
Qed.

(** X11: [base64ToBlob] throws exactly when [atob] does; otherwise the
    bytes of the blob are the code units of the string [atob] returns, one
    byte for each, in order, and nothing is lost in the conversion to
    [Uint8Array]. *)
Theorem base64ToBlob_decoded base64 type :
  match Base64.atob base64 with
  | None => base64ToBlob base64 type = None
  | Some byteCharacters =>
      exists blob,
        base64ToBlob base64 type = Some blob
        /\ map Byte.to_N (blobBytes blob) = byteCharacters
        /\ blobType blob = normalizeType type
  end.
Proof.
  rewrite base64ToBlob_atob.
  destruct (Base64.atob base64) as [s|] eqn:E; [|reflexivity].
  eexists. split; [reflexivity|]. cbn [blobBytes blobType]. split; [|reflexivity].
  rewrite map_map. rewrite <- (map_id s) at 2.
  apply map_ext_in. intros c Hc. apply toUint8_to_N.
  pose proof (atob_bytes base64 s E) as Hs. rewrite Forall_forall in Hs.
  exact (Hs c Hc).
Qed.

Lemma atob_strip data :
  Base64.atob data = Base64.atob (stripWhitespace data).
Proof.
  unfold Base64.atob, Base64.forgivingDecode, stripWhitespace.
  assert (E : forall (p : N -> bool) l, filter p (filter p l) = filter p l).
  { intros p l. induction l as [|x l IH]; [reflexivity|]. simpl.
    destruct (p x) eqn:Hp; [simpl; rewrite Hp, IH; reflexivity | exact IH]. }
  rewrite E. reflexivity.
Qed.

(** X12: white space in the base64 text is ignored: spaces, tabs, line
    feeds, form feeds and carriage returns anywhere in the argument do not
    change the result of [base64ToBlob]. *)
Theorem base64ToBlob_ignores_whitespace before blank after type :
  forallb Base64.isAsciiWhitespace blank = true ->
  base64ToBlob (before ++ blank ++ after) type
  = base64ToBlob (before ++ after) type.
Proof.
  intros Hblank. rewrite !base64ToBlob_atob.
  rewrite (atob_strip (before ++ blank ++ after)), (atob_strip (before ++ after)).
  unfold stripWhitespace. rewrite !filter_app.
  replace (filter (fun c => negb (Base64.isAsciiWhitespace c)) blank) with (@nil N).
  - reflexivity.
  - symmetry. induction blank as [|c blank IH]; [reflexivity|].
    simpl in Hblank. apply andb_true_iff in Hblank as [Hc Hblank].
    simpl. rewrite Hc. simpl. apply IH, Hblank.
Qed.

Lemma removePadding_plain data :
  Forall plain data -> Base64.removePadding data = data.
Proof.
  intros Hp. unfold Base64.removePadding.
  rewrite (dropEquals_plain data Hp). destruct (_ =? 0)%nat; reflexivity.
Qed.

Lemma filter_plain data :
  Forall plain data ->
  filter (fun c => negb (Base64.isAsciiWhitespace c)) data = data.
Proof.
  intros Hp. apply forallb_filter_id, forallb_forall. intros c Hc.
  rewrite Forall_forall in Hp. destruct (index_plain c (Hp c Hc)) as [-> _].
  reflexivity.
Qed.

(** X13: the padding is optional: [base64ToBlob] gives back the bytes
    also from their encoding without its trailing [=] characters. *)
Theorem base64ToBlob_unpadded bytes type :
  Base64.encode bytes = unpadded bytes ++ padding bytes
  /\ Forall (fun c => c = 61%N) (padding bytes)
  /\ base64ToBlob (unpadded bytes) type
     = Some {| blobBytes := bytes; blobType := normalizeType type |}.
Proof.
  split; [apply encode_unpadded|]. split.
  { destruct (padding_cases bytes) as [-> | [-> | ->]]; repeat constructor. }
  rewrite base64ToBlob_atob.
  assert (E : Base64.atob (unpadded bytes) = Some (map Byte.to_N bytes)).
  { unfold Base64.atob, Base64.forgivingDecode.
    pose proof (unpadded_plain bytes) as Hp.
    rewrite (filter_plain _ Hp), (removePadding_plain _ Hp).
    destruct (length_unpadded bytes) as (k & r & -> & Hr).
    replace ((4 * k + r) mod 4 =? 1)%nat with false.
    2: { symmetry. apply Nat.eqb_neq.
         rewrite Nat.add_comm, Nat.mul_comm, Nat.Div0.mod_add.
         destruct Hr as [-> | [-> | ->]]; cbn; lia. }
    replace (forallb _ (unpadded bytes)) with true.
    2: { symmetry. apply forallb_forall. intros c Hc.
         rewrite Forall_forall in Hp. specialize (Hp c Hc). unfold plain in Hp.
         destruct (Base64.index c); [reflexivity | congruence]. }
    cbn [negb]. apply decodeLoop_unpadded. }
  rewrite E, map_map. do 2 f_equal.
  rewrite <- (map_id bytes) at 2. apply map_ext. intros b. apply toUint8_byte.
Qed.

(** X14: [base64ToBlob] throws on a text with a character that is neither
    white space, nor [=], nor of the base64 alphabet, and on a text with
    4k+1 characters besides white space. *)
Theorem base64ToBlob_rejects base64 type :
  (exists c, In c base64 /\ Base64.isAsciiWhitespace c = false
             /\ c <> 61%N /\ Base64.index c = None)
  \/ (List.length (stripWhitespace base64) mod 4 = 1)%nat ->
  base64ToBlob base64 type = None.
Proof.
  intros Hbad. rewrite base64ToBlob_atob.
  unfold Base64.atob, Base64.forgivingDecode. fold (stripWhitespace base64).
  destruct Hbad as [(c & Hc & Hws & Hne & Hidx) | Hlen].
  - assert (Hin : In c (Base64.removePadding (stripWhitespace base64))).
    { apply removePadding_keeps; [|exact Hne].
      apply filter_In. split; [exact Hc | rewrite Hws; reflexivity]. }
    destruct (_ =? 1)%nat; [reflexivity|].
    replace (forallb _ (Base64.removePadding (stripWhitespace base64))) with false;
      [reflexivity|].
    symmetry. apply not_true_is_false. intros Hall.
    rewrite forallb_forall in Hall. specialize (Hall c Hin).
    rewrite Hidx in Hall. discriminate.
  - unfold Base64.removePadding. rewrite Hlen. cbn [Nat.eqb]. rewrite Hlen.
    reflexivity.
Qed.

End DecoderFacts.

Lemma base64ToBlob_ignores_whitespace_line_feed :
  forallb Base64.isAsciiWhitespace [13%N; 10%N] = true
  /\ base64ToBlob (JSString.lit "Zm9v" ++ [13%N; 10%N] ++ JSString.lit "Yg==")
       (JSString.lit "audio/mpeg")
     = base64ToBlob (JSString.lit "Zm9v" ++ JSString.lit "Yg==")
         (JSString.lit "audio/mpeg").
Proof.
  split; [reflexivity|].
  exact (base64ToBlob_ignores_whitespace (JSString.lit "Zm9v") [13%N; 10%N]
           (JSString.lit "Yg==") (JSString.lit "audio/mpeg") eq_refl).
Defined.

Lemma base64ToBlob_rejects_percent :
  ((exists c, In c (JSString.lit "Zm9v%g==") /\ Base64.isAsciiWhitespace c = false
              /\ c <> 61%N /\ Base64.index c = None)
   \/ (List.length (stripWhitespace (JSString.lit "Zm9v%g==")) mod 4 = 1)%nat)
  /\ base64ToBlob (JSString.lit "Zm9v%g==") (JSString.lit "audio/mpeg") = None.
Proof.
  assert (Hbad : (exists c, In c (JSString.lit "Zm9v%g==")
                            /\ Base64.isAsciiWhitespace c = false
                            /\ c <> 61%N /\ Base64.index c = None)
                 \/ (List.length (stripWhitespace (JSString.lit "Zm9v%g==")) mod 4
                     = 1)%nat).
  { left. exists 37%N. split; [simpl; tauto|]. split; [reflexivity|].
    split; [discriminate | reflexivity]. }
  split; [exact Hbad|].
  exact (base64ToBlob_rejects (JSString.lit "Zm9v%g==") (JSString.lit "audio/mpeg")
           Hbad).
Defined.


(** ** Data URLs *)

Section DataURLFacts.

Lemma split_no_sep sep s : ~ In sep s -> split sep s = [s].
Proof.
  induction s as [|c s IH]; intros Hno; [reflexivity|].
  cbn [split]. destruct (N.eqb_spec c sep) as [-> | Hc].
  - exfalso. apply Hno. left. reflexivity.
  - rewrite IH; [reflexivity|]. intros Hin. apply Hno. right. exact Hin.
Qed.

Lemma split_at_sep sep a b :
  ~ In sep a -> split sep (a ++ sep :: b) = a :: split sep b.
Proof.
  induction a as [|c a IH]; intros Hno.
  - cbn [app split]. rewrite N.eqb_refl. reflexivity.
  - cbn [app split]. destruct (N.eqb_spec c sep) as [-> | Hc].
    + exfalso. apply Hno. left. reflexivity.
    + rewrite IH; [reflexivity|]. intros Hin. apply Hno. right. exact Hin.
Qed.

Lemma encode_no_comma bytes : ~ In 44%N (Base64.encode bytes).
Proof.
  rewrite encode_unpadded. intros Hin. apply in_app_or in Hin as [Hin | Hin].
  - pose proof (unpadded_plain bytes) as Hp. rewrite Forall_forall in Hp.
    apply (Hp 44%N Hin). reflexivity.
  - destruct (padding_cases bytes) as [E | [E | E]]; rewrite E in Hin;
      simpl in Hin; intuition discriminate.
Qed.

Lemma dataURL_pieces mediaType bytes :
  ~ In 44%N mediaType ->
  split 44%N (dataURL mediaType bytes)
  = [JSString.lit "data:" ++ mediaType ++ JSString.lit ";base64";
     Base64.encode bytes].
Proof.
  intros Hno. unfold dataURL.
  replace (JSString.lit "data:" ++ mediaType ++ JSString.lit ";base64,"
           ++ Base64.encode bytes)
    with ((JSString.lit "data:" ++ mediaType ++ JSString.lit ";base64")
          ++ 44%N :: Base64.encode bytes).
  2: { change (JSString.lit ";base64,") with (JSString.lit ";base64" ++ [44%N]).
       rewrite <- !app_assoc. reflexivity. }
  rewrite split_at_sep, (split_no_sep _ _ (encode_no_comma bytes));
    [reflexivity|].
  intros Hin. apply in_app_or in Hin as [Hin | Hin];
    [|apply in_app_or in Hin as [Hin | Hin]].
  - simpl in Hin. intuition discriminate.
  - exact (Hno Hin).
  - simpl in Hin. intuition discriminate.
Qed.

(** X15: [blobToBase64] and [base64ToBlob] are inverse to each other on
    the bytes.  From the data URL of a blob whose media type has no comma,
    [blobToBase64] resolves with the standard base64 encoding of the
    bytes of the blob, and [base64ToBlob] makes these bytes again. *)
Theorem blobToBase64_round_trip mediaType bytes type :
  ~ In 44%N mediaType ->
  exists base64,
    blobToBase64 (Some (dataURL mediaType bytes)) = Some (Some (JString base64))
    /\ base64 = Base64.encode bytes
    /\ base64ToBlob base64 type
       = Some {| blobBytes := bytes; blobType := normalizeType type |}.
Proof.
  intros Hno. exists (Base64.encode bytes).
  split; [|split; [reflexivity | apply base64ToBlob_bytes]].
  unfold blobToBase64, at_. rewrite (dataURL_pieces mediaType bytes Hno).
  reflexivity.
Qed.

(** X16: [blobToBase64] takes what stands between the first and the second
    comma of the data URL.  For a media type with a comma that is not the
    payload but the rest of the media type: from the type [t1,t2] (no
    comma in [t1] and [t2]) the result is [t2;base64]. *)
Theorem blobToBase64_comma_in_type t1 t2 bytes :
  ~ In 44%N t1 -> ~ In 44%N t2 ->
  blobToBase64 (Some (dataURL (t1 ++ 44%N :: t2) bytes))
  = Some (Some (JString (t2 ++ JSString.lit ";base64"))).
Proof.
  intros H1 H2. unfold blobToBase64, at_, dataURL.
  replace (JSString.lit "data:" ++ (t1 ++ 44%N :: t2) ++ JSString.lit ";base64,"
           ++ Base64.encode bytes)
    with ((JSString.lit "data:" ++ t1) ++ 44%N
          :: ((t2 ++ JSString.lit ";base64") ++ 44%N :: Base64.encode bytes)).
  2: { change (JSString.lit ";base64,") with (JSString.lit ";base64" ++ [44%N]).
       rewrite <- !app_assoc. cbn [app]. rewrite <- ?app_assoc. reflexivity. }
  rewrite split_at_sep, split_at_sep; [reflexivity | |].
  - intros Hin. apply in_app_or in Hin as [Hin | Hin]; [exact (H2 Hin)|].
    simpl in Hin. intuition discriminate.
  - intros Hin. apply in_app_or in Hin as [Hin | Hin]; [|exact (H1 Hin)].
    simpl in Hin. intuition discriminate.
Qed.

End DataURLFacts.

Lemma blobToBase64_round_trip_webm :
  ~ In 44%N (JSString.lit "audio/webm")
  /\ exists base64,
       blobToBase64 (Some (dataURL (JSString.lit "audio/webm") zeroBytes))
       = Some (Some (JString base64))
       /\ base64 = Base64.encode zeroBytes
       /\ base64ToBlob base64 (JSString.lit "audio/mpeg")
          = Some {| blobBytes := zeroBytes;
                    blobType := normalizeType (JSString.lit "audio/mpeg") |}.
Proof.
  assert (Hno : ~ In 44%N (JSString.lit "audio/webm"))
    by (simpl; intuition discriminate).
  split; [exact Hno|].
  exact (blobToBase64_round_trip (JSString.lit "audio/webm") zeroBytes
           (JSString.lit "audio/mpeg") Hno).
Defined.

Lemma blobToBase64_comma_in_type_codecs :
  ~ In 44%N (JSString.lit "audio/webm;codecs=opus")
  /\ ~ In 44%N (JSString.lit "vorbis")
  /\ blobToBase64
       (Some (dataURL (JSString.lit "audio/webm;codecs=opus" ++ 44%N :: JSString.lit "vorbis")
                zeroBytes))
     = Some (Some (JString (JSString.lit "vorbis" ++ JSString.lit ";base64"))).
Proof.
  assert (H1 : ~ In 44%N (JSString.lit "audio/webm;codecs=opus"))
    by (simpl; intuition discriminate).
  assert (H2 : ~ In 44%N (JSString.lit "vorbis"))
    by (simpl; intuition discriminate).
  split; [exact H1 | split; [exact H2|]].
  exact (blobToBase64_comma_in_type (JSString.lit "audio/webm;codecs=opus")
           (JSString.lit "vorbis") zeroBytes H1 H2).
Defined.


(** ** The handlers of the page *)

Section PageFacts.
Context `{Engine}.

Ltac run_page :=
  unfold bindP, tryCatchP, emitP, retP, throwP, askP, getPage, setStatus,
    setMediaRecorder, setAudioChunks, setLastAudioBase64, setLastImageBase64,
    awaitP, liftAudio;
  cbn beta iota zeta;
  cbn [mediaRecorder audioChunks lastAudioBase64 lastImageBase64 log audio].

Ltac same_page :=
  unfold logged, spoken;
  cbn [mediaRecorder audioChunks lastAudioBase64 lastImageBase64 log audio];
  rewrite <- ?app_assoc, ?app_nil_r; cbn [app]; reflexivity.

(** Every run of [analyzeScene]. *)
Lemma analyzeScene_run h p :
  analyzeScene h p
  = if negb (ToBoolean (lastImageBase64 p)) then (Fulfilled tt, p)
    else
      let started :=
        [SetDescriptionText (JSString.lit "Analyzing...");
         SetStatusText (JSString.lit "Analyzing scene...");
         PostAnalyze (lastImageBase64 p)] in
      let failed :=
        (Fulfilled tt,
         logged p (started ++ [SetDescriptionText (JSString.lit "Analysis failed.")])) in
      match analyze h (lastImageBase64 p) with
      | AnalysisRejects _ | AnalysisNotJson _ | AnalysisNull => failed
      | AnalysisObject description others =>
          if descriptionThrows description others then failed
          else
            (Fulfilled tt,
             logged
               (spoken p (snd (speakDescription (spokenText description)
                                 (speech h) (audio p))))
               (started ++ [SetDescriptionText (shownDescription description others);
                            SetStatusText (JSString.lit "Analysis complete.")]))
      end.
Proof.
  unfold analyzeScene. run_page.
  destruct (negb (ToBoolean (lastImageBase64 p))); [reflexivity|].
  run_page.
  destruct (analyze h (lastImageBase64 p)) as [e | e | | description others];
    run_page; try same_page.
  fold (spokenText description). fold (shownDescription description others).
  fold (descriptionThrows description others).
  destruct (descriptionThrows description others); run_page; [same_page|].
  destruct (speakDescription_returns (spokenText description) (speech h) (audio p))
    as [st E].
  rewrite E. run_page. same_page.
Qed.

(** Every run of [transcribeAudio]. *)
Lemma transcribeAudio_run h p :
  transcribeAudio h p
  = let failed :=
      (Fulfilled tt,
       logged p [PostTranscribe (lastAudioBase64 p);
                 SetTranscriptText (JSString.lit "Transcription failed.")]) in
    match transcribe h (lastAudioBase64 p) with
    | FetchRejects _ | JsonRejects _ | JsonData JNull => failed
    | JsonData data =>
        if transcriptThrows data then failed
        else
          (Fulfilled tt,
           logged p [PostTranscribe (lastAudioBase64 p);
                     SetTranscriptText (shownTranscript data);
                     SetStatusText (JSString.lit "Audio ready.")])
    end.
Proof.
  unfold transcribeAudio. run_page.
  destruct (transcribe h (lastAudioBase64 p)) as [e | e | data];
    run_page; try same_page.
  destruct data; run_page; try same_page;
    match goal with
    | |- context [toStringThrows ?v] =>
        match goal with
        | |- context [transcriptThrows ?d] =>
            change (toStringThrows v) with (transcriptThrows d);
            destruct (transcriptThrows d); run_page; same_page
        end
    end.
Qed.

(** Every run of [captureFrame]. *)
Lemma captureFrame_run h p :
  captureFrame h p
  = if (videoWidth h =? 0)%N then (Fulfilled tt, p)
    else
      let image :=
        at_ (split 44%N (toDataURL h (videoWidth h) (videoHeight h))) 1 in
      let p1 :=
        {| mediaRecorder := mediaRecorder p; audioChunks := audioChunks p;
           lastAudioBase64 := lastAudioBase64 p; lastImageBase64 := image;
           log := log p; audio := audio p |} in
      (Fulfilled tt,
       logged p1 [ResizeCanvas (videoWidth h) (videoHeight h);
                  DrawImage (videoWidth h) (videoHeight h);
                  SetStatusText (JSString.lit "Frame captured.");
                  SetDisabled AnalyzeButton (analyzeDisabled p1)]).
Proof.
  unfold captureFrame. run_page.
  destruct (videoWidth h =? 0)%N; [reflexivity|]. run_page.
  unfold analyzeDisabled. cbn [lastAudioBase64 lastImageBase64]. same_page.
Qed.

(** Every run of [onStop]. *)
Lemma onStop_run h p :
  onStop h p
  = match blobToBase64 (readAsDataURL h (recording p)) with
    | None => (Pending, p)
    | Some base64 =>
        let p1 :=
          {| mediaRecorder := mediaRecorder p; audioChunks := audioChunks p;
             lastAudioBase64 := base64; lastImageBase64 := lastImageBase64 p;
             log := log p ++ [SetTranscriptText (JSString.lit "Transcribing...")];
             audio := audio p |} in
        let p2 := snd (transcribeAudio h p1) in
        (Fulfilled tt, logged p2 [SetDisabled AnalyzeButton (analyzeDisabled p2)])
    end.
Proof.
  unfold onStop. run_page. fold (recording p).
  destruct (blobToBase64 (readAsDataURL h (recording p))) as [base64|];
    [|reflexivity].
  run_page.
  match goal with
  | |- context [transcribeAudio h ?q] =>
      set (p1 := q); rewrite (transcribeAudio_run h p1)
  end.
  destruct (transcribe h (lastAudioBase64 p1)) as [e | e | data];
    cbv zeta; run_page; try reflexivity.
  destruct data; run_page; try reflexivity;
    match goal with
    | |- context [transcriptThrows ?d] =>
        destruct (transcriptThrows d); run_page; reflexivity
    end.
Qed.

(** Every run of [startRecording]. *)
Lemma startRecording_run h p :
  startRecording h p
  = let denied := SetStatusText (JSString.lit "Microphone access denied.") in
    match microphone h with
    | Some _ => (Fulfilled tt, logged p [GetUserMedia true; denied])
    | None =>
        match recorderFailure h with
        | Some _ =>
            (Fulfilled tt, logged p [GetUserMedia true; NewMediaRecorder; denied])
        | None =>
            let fresh (r : recorderState) :=
              {| mediaRecorder := Some r; audioChunks := [];
                 lastAudioBase64 := lastAudioBase64 p;
                 lastImageBase64 := lastImageBase64 p;
                 log := log p; audio := audio p |} in
            match startFailure h with
            | Some _ =>
                (Fulfilled tt,
                 logged (fresh Inactive)
                   [GetUserMedia true; NewMediaRecorder; RecorderStart; denied])
            | None =>
                (Fulfilled tt,
                 logged (fresh Recording)
                   [GetUserMedia true; NewMediaRecorder; RecorderStart;
                    SetStatusText (JSString.lit "Recording...");
                    SetDisabled StartButton true; SetDisabled StopButton false])
            end
        end
    end.
Proof.
  unfold startRecording. run_page.
  destruct (microphone h); run_page; [same_page|].
  destruct (recorderFailure h); run_page; [same_page|].
  destruct (startFailure h); run_page; same_page.
Qed.

(** Every run of [stopRecording]. *)
Lemma stopRecording_run h p :
  stopRecording h p
  = let buttons := [SetDisabled StopButton true; SetDisabled StartButton false] in
    match mediaRecorder p with
    | None | Some Inactive => (Fulfilled tt, logged p buttons)
    | Some _ =>
        (Fulfilled tt,
         logged
           {| mediaRecorder := Some Inactive; audioChunks := audioChunks p;
              lastAudioBase64 := lastAudioBase64 p;
              lastImageBase64 := lastImageBase64 p;
              log := log p; audio := audio p |}
           ([RecorderStop; SetStatusText (JSString.lit "Processing audio...")]
            ++ buttons))
    end.
Proof.
  unfold stopRecording. run_page.
  destruct (mediaRecorder p) as [[| |]|]; run_page; same_page.
Qed.

Lemma initCamera_run h p :
  initCamera h p
  = match camera h with
    | Some _ =>
        (Fulfilled tt,
         logged p [GetUserMedia false;
                   SetStatusText (JSString.lit "Camera access denied.")])
    | None => (Fulfilled tt, logged p [GetUserMedia false; SetVideoSource])
    end.
Proof.
  unfold initCamera. run_page. destruct (camera h); run_page; same_page.
Qed.

(** The conversion of the text to show throws only on an object with a
    member [toString]. *)
Lemma descriptionThrows_iff description others :
  descriptionThrows description others = true
  <-> spokenText description = []
      /\ exists e, lookup (JSString.lit "error") others = Some e
                   /\ ToBoolean (Some e) = true
                   /\ throwsJson e = true.
Proof.
  assert (Herr : toStringThrows
                   (if ToBoolean (lookup (JSString.lit "error") others)
                    then lookup (JSString.lit "error") others
                    else Some (JString (JSString.lit "No description."))) = true
                 <-> exists e, lookup (JSString.lit "error") others = Some e
                               /\ ToBoolean (Some e) = true
                               /\ throwsJson e = true).
  { destruct (lookup (JSString.lit "error") others) as [e|].
    - destruct (ToBoolean (Some e)) eqn:Htruthy.
      + split; [intros Hthrows; exists e; auto
               | intros (e' & [= <-] & _ & Hthrows); exact Hthrows].
      + split; [discriminate | intros (e' & [= <-] & Hd & _); congruence].
    - change (ToBoolean None) with false; cbv iota.
      split; [discriminate | intros (e' & Hd & _); discriminate Hd]. }
  unfold descriptionThrows, orValue, spokenText.
  destruct description as [[|c text]|]; cbn [option_map].
  - change (ToBoolean (Some (JString []))) with false; cbv iota.
    rewrite Herr. tauto.
  - change (ToBoolean (Some (JString (c :: text)))) with true; cbv iota.
    split; [discriminate | intros (Hd & _); discriminate Hd].
  - change (ToBoolean None) with false; cbv iota.
    rewrite Herr. tauto.
Qed.


Lemma page_eta p : logged (spoken p (audio p)) [] = p.
Proof. destruct p. unfold logged, spoken. cbn. rewrite app_nil_r. reflexivity. Qed.

(** X17: [analyzeScene] never rejects, whatever the endpoints and the
    playback path do; it changes no module variable and no button, and
    without a captured frame it does nothing at all: no request, no text. *)
Theorem analyzeScene_settles h p :
  exists evs st,
    analyzeScene h p = (Fulfilled tt, logged (spoken p st) evs)
    /\ existsb isButtonWrite evs = false
    /\ (ToBoolean (lastImageBase64 p) = false -> evs = [] /\ st = audio p).
Proof.
  rewrite analyzeScene_run.
  destruct (ToBoolean (lastImageBase64 p)); cbn [negb].
  - destruct (analyze h (lastImageBase64 p)) as [e | e | | description others];
      cbv zeta;
      try (exists ([SetDescriptionText (JSString.lit "Analyzing...");
                    SetStatusText (JSString.lit "Analyzing scene...");
                    PostAnalyze (lastImageBase64 p)]
                   ++ [SetDescriptionText (JSString.lit "Analysis failed.")]),
             (audio p);
           split; [destruct p; reflexivity | split; [reflexivity | discriminate]]).
    destruct (descriptionThrows description others).
    + exists ([SetDescriptionText (JSString.lit "Analyzing...");
               SetStatusText (JSString.lit "Analyzing scene...");
               PostAnalyze (lastImageBase64 p)]
              ++ [SetDescriptionText (JSString.lit "Analysis failed.")]),
        (audio p).
      split; [destruct p; reflexivity | split; [reflexivity | discriminate]].
    + eexists. eexists. split; [reflexivity|].
      split; [reflexivity | discriminate].
  - exists [], (audio p). rewrite page_eta. repeat split; reflexivity.
Qed.

(** X18: when the analysis request fails, the answer is not JSON or it
    is [null], the page shows "Analysis failed." as the description, but
    its status line is left at "Analyzing scene..."; nothing is spoken. *)
Theorem analyzeScene_failure h p :
  ToBoolean (lastImageBase64 p) = true ->
  (exists e, analyze h (lastImageBase64 p) = AnalysisRejects e
             \/ analyze h (lastImageBase64 p) = AnalysisNotJson e)
  \/ analyze h (lastImageBase64 p) = AnalysisNull ->
  analyzeScene h p
  = (Fulfilled tt,
     logged p [SetDescriptionText (JSString.lit "Analyzing...");
               SetStatusText (JSString.lit "Analyzing scene...");
               PostAnalyze (lastImageBase64 p);
               SetDescriptionText (JSString.lit "Analysis failed.")]).
Proof.
  intros Himage Hfail. rewrite analyzeScene_run, Himage. cbn [negb].
  destruct Hfail as [(e & [-> | ->]) | ->]; reflexivity.
Qed.

(** X19: when the analysis endpoint answers with an object, the page
    shows its description, else its error, else "No description.", speaks
    the description, and ends with the status "Analysis complete."
    whatever becomes of the speech; with no description in the answer
    nothing is asked of the TTS endpoint.  The one exception is an answer
    whose text cannot be converted to a string, which is one without
    description whose truthy [error] is, or holds, an object with a
    member [toString]: the assignment throws, so the page shows "Analysis
    failed.", nothing is spoken and the status stays at "Analyzing
    scene...". *)
Theorem analyzeScene_answer h p description others :
  ToBoolean (lastImageBase64 p) = true ->
  analyze h (lastImageBase64 p) = AnalysisObject description others ->
  exists st,
    speakDescription (spokenText description) (speech h) (audio p)
    = (Normal tt, st)
    /\ analyzeScene h p
       = (if descriptionThrows description others
          then
            (Fulfilled tt,
             logged p
               [SetDescriptionText (JSString.lit "Analyzing...");
                SetStatusText (JSString.lit "Analyzing scene...");
                PostAnalyze (lastImageBase64 p);
                SetDescriptionText (JSString.lit "Analysis failed.")])
          else
            (Fulfilled tt,
             logged (spoken p st)
               [SetDescriptionText (JSString.lit "Analyzing...");
                SetStatusText (JSString.lit "Analyzing scene...");
                PostAnalyze (lastImageBase64 p);
                SetDescriptionText (shownDescription description others);
                SetStatusText (JSString.lit "Analysis complete.")]))
    /\ (spokenText description = [] -> st = audio p)
    /\ (descriptionThrows description others = true
        <-> spokenText description = []
            /\ exists e, lookup (JSString.lit "error") others = Some e
                         /\ ToBoolean (Some e) = true
                         /\ throwsJson e = true).
Proof.
  intros Himage Hanswer.
  destruct (speakDescription_returns (spokenText description) (speech h) (audio p))
    as [st E].
  exists st. split; [exact E|]. split; [|split].
  - rewrite analyzeScene_run, Himage, Hanswer, E. cbn [negb snd].
    destruct (descriptionThrows description others); reflexivity.
  - intros Hempty. rewrite Hempty in E.
    change (speakDescription [] (speech h) (audio p))
      with (Normal tt, audio p) in E.
    injection E as <-. reflexivity.
  - apply descriptionThrows_iff.
Qed.


(** X21: [captureFrame] keeps the payload of the data URL of the canvas.
    With a preview of non-zero width and a canvas that encodes to the data
    URL of [bytes], [lastImageBase64] becomes the base64 encoding of
    [bytes], and the Analyze button is set to disabled exactly when the
    recording or these bytes are missing. *)
Theorem captureFrame_keeps_payload h p mediaType bytes :
  videoWidth h <> 0%N ->
  ~ In 44%N mediaType ->
  toDataURL h (videoWidth h) (videoHeight h) = dataURL mediaType bytes ->
  captureFrame h p
  = (Fulfilled tt,
     {| mediaRecorder := mediaRecorder p; audioChunks := audioChunks p;
        lastAudioBase64 := lastAudioBase64 p;
        lastImageBase64 := Some (JString (Base64.encode bytes));
        log := log p ++
               [ResizeCanvas (videoWidth h) (videoHeight h);
                DrawImage (videoWidth h) (videoHeight h);
                SetStatusText (JSString.lit "Frame captured.");
                SetDisabled AnalyzeButton
                  (negb (ToBoolean (lastAudioBase64 p)
                         && negb (Nat.eqb (List.length bytes) 0)))];
        audio := audio p |}).
Proof.
  intros Hwidth Hcomma Hurl. rewrite captureFrame_run.
  apply N.eqb_neq in Hwidth. rewrite Hwidth, Hurl.
  rewrite (dataURL_pieces mediaType bytes Hcomma). cbv zeta.
  unfold at_, logged, analyzeDisabled.
  cbn [nth_error mediaRecorder audioChunks lastAudioBase64 lastImageBase64 log
       audio ToBoolean].
  replace (Nat.eqb (List.length (Base64.encode bytes)) 0)
    with (Nat.eqb (List.length bytes) 0); [reflexivity|].
  destruct bytes as [|a [|b [|c rest]]]; reflexivity.
Qed.

(** X22: [onStop] uploads the recording as it was made.  When the reader
    gives the data URL of the blob, [lastAudioBase64] becomes the base64
    encoding of the bytes of the chunks, in the order of their arrival;
    that value is what is posted to the transcription endpoint, and the
    Analyze button is set last, from that value and the captured frame. *)
Theorem onStop_uploads h p :
  readAsDataURL h (recording p)
  = Some (dataURL (blobType (recording p)) (blobBytes (recording p))) ->
  let upload :=
    Some (JString (Base64.encode (List.concat (map blobBytes (audioChunks p))))) in
  exists evs,
    onStop h p
    = (Fulfilled tt,
       {| mediaRecorder := mediaRecorder p; audioChunks := audioChunks p;
          lastAudioBase64 := upload; lastImageBase64 := lastImageBase64 p;
          log := log p ++
                 [SetTranscriptText (JSString.lit "Transcribing...");
                  PostTranscribe upload]
                 ++ evs
                 ++ [SetDisabled AnalyzeButton
                       (negb (ToBoolean upload && ToBoolean (lastImageBase64 p)))];
          audio := audio p |})
    /\ List.length (filter isTranscriptWrite evs) = 1%nat
    /\ existsb isButtonWrite evs = false.
Proof.
  intros Hread upload. rewrite onStop_run, Hread.
  assert (Hpieces : blobToBase64
                      (Some (dataURL (blobType (recording p)) (blobBytes (recording p))))
                    = Some upload).
  { unfold blobToBase64, at_. rewrite dataURL_pieces; [reflexivity|].
    cbn. intuition discriminate. }
  rewrite Hpieces. cbv zeta. rewrite transcribeAudio_run.
  cbn [lastAudioBase64].
  destruct (transcribe h upload) as [e | e | data]; cbv zeta.
  1, 2: exists [SetTranscriptText (JSString.lit "Transcription failed.")];
    split; [|split; reflexivity];
    unfold logged, analyzeDisabled;
    cbn [snd mediaRecorder audioChunks lastAudioBase64 lastImageBase64 log audio];
    rewrite <- !app_assoc; reflexivity.
  destruct data;
    try match goal with
        | |- context [transcriptThrows ?d] => destruct (transcriptThrows d)
        end;
    first
      [ exists [SetTranscriptText (JSString.lit "Transcription failed.")];
        split; [|split; reflexivity];
        unfold logged, analyzeDisabled;
        cbn [snd mediaRecorder audioChunks lastAudioBase64 lastImageBase64 log
             audio];
        rewrite <- !app_assoc; reflexivity
      | eexists [SetTranscriptText _; SetStatusText (JSString.lit "Audio ready.")];
        split; [|split; reflexivity];
        unfold logged, analyzeDisabled;
        cbn [snd mediaRecorder audioChunks lastAudioBase64 lastImageBase64 log
             audio];
        rewrite <- !app_assoc; reflexivity ].
Qed.

(** X23: when the read of the recording fails, [reader.result] is [null]
    and the handler of [loadend] throws: the promise of [blobToBase64]
    stays pending and [onStop] goes no further.  The page is left as it
    was: no transcription is requested and [lastAudioBase64] keeps its
    value. *)
Theorem onStop_failed_read h p :
  readAsDataURL h (recording p) = None -> onStop h p = (Pending, p).
Proof. intros Hread. rewrite onStop_run, Hread. reflexivity. Qed.

(** *** The Analyze button *)

Lemma lastAnalyzeWrite_from l evs acc :
  fold_left
    (fun acc ev => match ev with SetDisabled AnalyzeButton d => Some d | _ => acc end)
    (l ++ evs) acc
  = fold_left
      (fun acc ev => match ev with SetDisabled AnalyzeButton d => Some d | _ => acc end)
      evs
      (fold_left
         (fun acc ev => match ev with SetDisabled AnalyzeButton d => Some d | _ => acc end)
         l acc).
Proof. apply fold_left_app. Qed.

Lemma lastAnalyzeWrite_other l evs :
  existsb isAnalyzeWrite evs = false ->
  lastAnalyzeWrite (l ++ evs) = lastAnalyzeWrite l.
Proof.
  unfold lastAnalyzeWrite. rewrite lastAnalyzeWrite_from.
  generalize (fold_left
                (fun acc ev =>
                   match ev with SetDisabled AnalyzeButton d => Some d | _ => acc end)
                l None).
  induction evs as [|ev evs IH]; intros acc Hno; [reflexivity|].
  cbn [existsb] in Hno. apply orb_false_iff in Hno as [Hev Hno].
  cbn [fold_left]. rewrite IH by exact Hno.
  destruct ev as [| | | | | [| |] d | | | | | | |]; try reflexivity.
  discriminate Hev.
Qed.

Lemma lastAnalyzeWrite_last l d :
  lastAnalyzeWrite (l ++ [SetDisabled AnalyzeButton d]) = Some d.
Proof. unfold lastAnalyzeWrite. rewrite fold_left_app. reflexivity. Qed.

Lemma buttonAgrees_other p p' evs :
  buttonAgrees p ->
  lastAudioBase64 p' = lastAudioBase64 p ->
  lastImageBase64 p' = lastImageBase64 p ->
  log p' = log p ++ evs ->
  existsb isAnalyzeWrite evs = false ->
  buttonAgrees p'.
Proof.
  unfold buttonAgrees, analyzeDisabled. intros Hp Ha Hi Hlog Hno.
  rewrite Hlog, (lastAnalyzeWrite_other _ _ Hno), Ha, Hi. exact Hp.
Qed.

Lemma buttonAgrees_set p' l :
  log p' = l ++ [SetDisabled AnalyzeButton (analyzeDisabled p')] ->
  buttonAgrees p'.
Proof.
  unfold buttonAgrees. intros Hlog. rewrite Hlog, lastAnalyzeWrite_last.
  reflexivity.
Qed.

Lemma handle_buttonAgrees a h p :
  buttonAgrees p -> buttonAgrees (snd (handle a h p)).
Proof.
  intros Hp. destruct a as [| | | | | data |]; cbn [handle].
  - rewrite initCamera_run.
    destruct (camera h); cbn [snd];
      eapply (buttonAgrees_other p); try exact Hp; reflexivity.
  - rewrite startRecording_run. cbv zeta.
    destruct (microphone h); [|destruct (recorderFailure h);
                               [|destruct (startFailure h)]];
      cbn [snd]; eapply (buttonAgrees_other p); try exact Hp; reflexivity.
  - rewrite stopRecording_run. cbv zeta.
    destruct (mediaRecorder p) as [[| |]|]; cbn [snd];
      eapply (buttonAgrees_other p); try exact Hp; reflexivity.
  - rewrite captureFrame_run.
    destruct (videoWidth h =? 0)%N; [exact Hp|]. cbv zeta. cbn [snd].
    match goal with
    | |- buttonAgrees (logged ?q [?a; ?b; ?c; _]) =>
        apply (buttonAgrees_set _ (log q ++ [a; b; c]))
    end.
    unfold logged. cbn [log]. rewrite <- app_assoc. reflexivity.
  - rewrite analyzeScene_run.
    destruct (negb (ToBoolean (lastImageBase64 p))); [exact Hp|]. cbv zeta.
    destruct (analyze h (lastImageBase64 p)) as [e | e | | description others];
      try destruct (descriptionThrows description others); cbn [snd];
      eapply (buttonAgrees_other p); try exact Hp; reflexivity.
  - unfold onDataAvailable.
    destruct (0 <? List.length (blobBytes data))%nat; [|exact Hp].
    cbn. eapply (buttonAgrees_other p _ []); try exact Hp; try reflexivity.
    cbn. rewrite app_nil_r. reflexivity.
  - rewrite onStop_run.
    destruct (blobToBase64 (readAsDataURL h (recording p))); [|exact Hp].
    cbv zeta. cbn [snd].
    match goal with
    | |- buttonAgrees (logged ?q _) => apply (buttonAgrees_set _ (log q))
    end.
    reflexivity.
Qed.

(** X24: the Analyze button follows the two inputs.  Through any sequence
    of handlers, each run to its end on any host, the value a handler gave
    last to [analyzeBtn.disabled] is [false] exactly when both
    [lastAudioBase64] and [lastImageBase64] are truthy. *)
Theorem analyze_button_follows_inputs steps : forall p,
  buttonAgrees p -> buttonAgrees (runAll steps p).
Proof.
  induction steps as [|[h a] steps IH]; intros p Hp; [exact Hp|].
  cbn [runAll]. apply IH, handle_buttonAgrees, Hp.
Qed.


End PageFacts.


Lemma analyzeScene_failure_offline :
  ToBoolean (lastImageBase64 readyPage) = true
  /\ ((exists e, analyze offlineHost (lastImageBase64 readyPage) = AnalysisRejects e
                 \/ analyze offlineHost (lastImageBase64 readyPage) = AnalysisNotJson e)
      \/ analyze offlineHost (lastImageBase64 readyPage) = AnalysisNull)
  /\ @analyzeScene asciiEngine offlineHost readyPage
     = (Fulfilled tt,
        logged readyPage
          [SetDescriptionText (JSString.lit "Analyzing...");
           SetStatusText (JSString.lit "Analyzing scene...");
           PostAnalyze (lastImageBase64 readyPage);
           SetDescriptionText (JSString.lit "Analysis failed.")]).
Proof.
  assert (H1 : ToBoolean (lastImageBase64 readyPage) = true) by reflexivity.
  assert (H2 : (exists e, analyze offlineHost (lastImageBase64 readyPage)
                          = AnalysisRejects e
                          \/ analyze offlineHost (lastImageBase64 readyPage)
                             = AnalysisNotJson e)
               \/ analyze offlineHost (lastImageBase64 readyPage) = AnalysisNull).
  { left. exists TypeError. left. reflexivity. }
  split; [exact H1 | split; [exact H2|]].
  exact (@analyzeScene_failure asciiEngine offlineHost readyPage H1 H2).
Defined.

Lemma analyzeScene_answer_good :
  ToBoolean (lastImageBase64 readyPage) = true
  /\ analyze goodHost (lastImageBase64 readyPage) = AnalysisObject (Some scenario1) []
  /\ exists st,
       @speakDescription asciiEngine (spokenText (Some scenario1)) (speech goodHost)
         (audio readyPage)
       = (Normal tt, st)
       /\ @analyzeScene asciiEngine goodHost readyPage
          = (Fulfilled tt,
             logged (spoken readyPage st)
               [SetDescriptionText (JSString.lit "Analyzing...");
                SetStatusText (JSString.lit "Analyzing scene...");
                PostAnalyze (lastImageBase64 readyPage);
                SetDescriptionText (@shownDescription asciiEngine (Some scenario1) []);
                SetStatusText (JSString.lit "Analysis complete.")])
       /\ (spokenText (Some scenario1) = [] -> st = audio readyPage)
       /\ (descriptionThrows (Some scenario1) [] = true
           <-> spokenText (Some scenario1) = []
               /\ exists e, lookup (JSString.lit "error") [] = Some e
                            /\ ToBoolean (Some e) = true
                            /\ throwsJson e = true).
Proof.
  assert (H1 : ToBoolean (lastImageBase64 readyPage) = true) by reflexivity.
  assert (H2 : analyze goodHost (lastImageBase64 readyPage)
               = AnalysisObject (Some scenario1) []) by reflexivity.
  split; [exact H1 | split; [exact H2|]].
  exact (@analyzeScene_answer asciiEngine goodHost readyPage (Some scenario1) []
           H1 H2).
Defined.

Lemma captureFrame_keeps_payload_good :
  videoWidth goodHost <> 0%N
  /\ ~ In 44%N (JSString.lit "image/jpeg")
  /\ toDataURL goodHost (videoWidth goodHost) (videoHeight goodHost)
     = dataURL (JSString.lit "image/jpeg") zeroBytes
  /\ captureFrame goodHost initialPage
     = (Fulfilled tt,
        {| mediaRecorder := None; audioChunks := [];
           lastAudioBase64 := Some JNull;
           lastImageBase64 := Some (JString (JSString.lit "AAAA"));
           log := [ResizeCanvas 640 480; DrawImage 640 480;
                   SetStatusText (JSString.lit "Frame captured.");
                   SetDisabled AnalyzeButton true];
           audio := {| trace := []; objectURLs := [] |} |}).
Proof.
  assert (H1 : videoWidth goodHost <> 0%N) by discriminate.
  assert (H2 : ~ In 44%N (JSString.lit "image/jpeg"))
    by (simpl; intuition discriminate).
  assert (H3 : toDataURL goodHost (videoWidth goodHost) (videoHeight goodHost)
               = dataURL (JSString.lit "image/jpeg") zeroBytes) by reflexivity.
  split; [exact H1 | split; [exact H2 | split; [exact H3|]]].
  exact (captureFrame_keeps_payload goodHost initialPage (JSString.lit "image/jpeg")
           zeroBytes H1 H2 H3).
Defined.

Lemma onStop_uploads_recorded :
  readAsDataURL goodHost (recording recordedPage)
  = Some (dataURL (blobType (recording recordedPage))
            (blobBytes (recording recordedPage)))
  /\ exists evs,
       @onStop asciiEngine goodHost recordedPage
       = (Fulfilled tt,
          {| mediaRecorder := Some Inactive;
             audioChunks := audioChunks recordedPage;
             lastAudioBase64 := Some (JString (JSString.lit "SGkh"));
             lastImageBase64 := Some JNull;
             log := [SetTranscriptText (JSString.lit "Transcribing...");
                     PostTranscribe (Some (JString (JSString.lit "SGkh")))]
                    ++ evs ++ [SetDisabled AnalyzeButton true];
             audio := {| trace := []; objectURLs := [] |} |})
       /\ List.length (filter isTranscriptWrite evs) = 1%nat
       /\ existsb isButtonWrite evs = false.
Proof.
  assert (H1 : readAsDataURL goodHost (recording recordedPage)
               = Some (dataURL (blobType (recording recordedPage))
                         (blobBytes (recording recordedPage)))) by reflexivity.
  split; [exact H1|].
  exact (@onStop_uploads asciiEngine goodHost recordedPage H1).
Defined.

Lemma onStop_failed_read_unreadable :
  readAsDataURL unreadableHost (recording recordedPage) = None
  /\ @onStop asciiEngine unreadableHost recordedPage = (Pending, recordedPage).
Proof.
  assert (H1 : readAsDataURL unreadableHost (recording recordedPage) = None)
    by reflexivity.
  split; [exact H1|].
  exact (@onStop_failed_read asciiEngine unreadableHost recordedPage H1).
Defined.

Lemma analyze_button_follows_inputs_session :
  let steps :=
    [(goodHost, StartRecording); (goodHost, DataAvailable mpegBlob);
     (goodHost, StopRecording); (goodHost, Stop); (goodHost, CaptureFrame);
     (offlineHost, AnalyzeScene)] in
  buttonAgrees initialPage
  /\ buttonAgrees (@runAll asciiEngine steps initialPage)
  /\ lastAnalyzeWrite (log (@runAll asciiEngine steps initialPage)) = Some false.
Proof.
  intros steps.
  assert (H1 : buttonAgrees initialPage) by exact I.
  split; [exact H1|]. split.
  - exact (@analyze_button_follows_inputs asciiEngine steps initialPage H1).
  - reflexivity.
Defined.



(** ** Answers that cannot be shown *)

(** An answer that holds an object with a member [toString] where a text
    is expected: the conversion to a string throws inside the [try]
    block of the handler.  The transcript and the description then read
    as after a failed request, and the payload of the speech is reported
    on the console as a TypeError. *)
Example transcribeAudio_unconvertible_text :
  let answer :=
    JObject [(JSString.lit "text",
              JObject [(JSString.lit "toString", JNumber 1%float)])] in
  let h :=
    {| camera := None; microphone := None; recorderFailure := None;
       startFailure := None; videoWidth := 640; videoHeight := 480;
       toDataURL := fun _ _ => dataURL (JSString.lit "image/jpeg") zeroBytes;
       readAsDataURL := fun b => Some (dataURL (blobType b) (blobBytes b));
       transcribe := fun _ => JsonData answer;
       analyze := fun _ => AnalysisRejects TypeError;
       speech := goodWorld |} in
  @transcribeAudio asciiEngine h readyPage
  = (Fulfilled tt,
     logged readyPage
       [PostTranscribe (lastAudioBase64 readyPage);
        SetTranscriptText (JSString.lit "Transcription failed.")]).
Proof. reflexivity. Qed.

Example analyzeScene_unconvertible_error :
  let others :=
    [(JSString.lit "error",
      JArray [JObject [(JSString.lit "toString", JNumber 1%float)]])] in
  let h :=
    {| camera := None; microphone := None; recorderFailure := None;
       startFailure := None; videoWidth := 640; videoHeight := 480;
       toDataURL := fun _ _ => dataURL (JSString.lit "image/jpeg") zeroBytes;
       readAsDataURL := fun b => Some (dataURL (blobType b) (blobBytes b));
       transcribe := fun _ => FetchRejects TypeError;
       analyze := fun _ => AnalysisObject None others;
       speech := goodWorld |} in
  @analyzeScene asciiEngine h readyPage
  = (Fulfilled tt,
     logged readyPage
       [SetDescriptionText (JSString.lit "Analyzing...");
        SetStatusText (JSString.lit "Analyzing scene...");
        PostAnalyze (lastImageBase64 readyPage);
        SetDescriptionText (JSString.lit "Analysis failed.")]).
Proof. reflexivity. Qed.

Example speakDescription_unconvertible_payload :
  let answer :=
    JObject [(JSString.lit "audioBase64",
              JObject [(JSString.lit "toString", JNumber 1%float)])] in
  let w :=
    {| tts := fun _ => JsonData answer;
       audioContextFailure := None;
       decodeAudioData := fun _ => Some (PCM []) |} in
  @speakDescription asciiEngine scenario1 w emptyState
  = (Normal tt, after emptyState [PostTts scenario1; ConsoleError TypeError]).
Proof. reflexivity. Qed.
